(** * sumex: a verified model of the stream stage

    A shallow embedding of package [sumex] (the stream stage with its pool of
    workers, its fan-out to subscribers, its counters and its shutdown) and
    the properties of its contract.

    The stage is concurrent.  Every goroutine the package starts or blocks is
    kept in the model as explicit state: the pool of goroutines running
    [worker], the callers of [Data] and [Error] blocked in the send on the
    unbuffered intake channel, the caller of [Shutdown] blocked in
    [wg.Wait()], and the goroutines started by [go sm.Data(..)] and
    [go sm.Error(..)].  A method that blocks is split at the blocking
    statement; the pieces between two blocking statements run as one step.
    A schedule is a list of such steps, and the theorems quantify over every
    schedule. *)

From Stdlib Require Import ZArith Ascii String List Lia.
From stdpp Require Import base option list strings gmap.

Local Open Scope string_scope.
Local Open Scope list_scope.
Local Open Scope Z_scope.

(** ** Machine integers *)

(** Go's [int64]; [int] is taken as 64 bits wide as well. *)
Definition int64_min : Z := - 2 ^ 63.
Definition int64_max : Z := 2 ^ 63 - 1.

(** Two's complement wrap-around of [atomic.AddInt64] and of [+] on [int]. *)
Definition wrap64 (z : Z) : Z := (z + 2 ^ 63) mod 2 ^ 64 - 2 ^ 63.

Definition in_int64 (z : Z) : Prop := int64_min <= z <= int64_max.

(** ** Values that travel through a stage *)

(** [interface{}]: the values a test or a caller submits. *)
Inductive value : Type :=
| VNil
| VInt (n : Z)
| VStr (s : string).

(** [error]: [None] is Go's [nil], [Some m] an error whose message is [m]. *)
Definition error : Type := option string.

(** [errors.New]. *)
Definition errors_New (m : string) : error := Some m.

(** [context.Context]: never inspected by the stage, only forwarded. *)
Definition Context : Type := nat.
Bind Scope nat_scope with Context.

(** [payload]: what is injected into the intake channel. *)
Record payload : Type := mkPayload {
  err : error;
  d : value;
  ctx : Context
}.

(** ** Faults *)

(** A Go call either returns or panics with a message. *)
Inductive outcome (A : Type) : Type :=
| Done (a : A)
| Panic (msg : string).
Arguments Done {A} a.
Arguments Panic {A} msg.

(** ** The logger *)

(** Arguments handed to the [data ...interface{}] of a log call. *)
Inductive arg : Type :=
| AValue (v : value)
| AError (e : error)
| ABytes (b : string)
| ASprintf (format : string) (a : arg).

(** A call received by the [Log] interface: [Log(context, name, message,
    data...)] or [Error(context, name, err, message, data...)]. *)
Inductive logcall : Type :=
| LogLog (context name message : string) (data : list arg)
| LogError (context name : string) (e : error) (message : string)
    (data : list arg).

(** A [Log] value: the package's own [events] (which does nothing with what
    it receives) or a logger of the caller.  Go's [nil] is [None]. *)
Inductive Log : Type :=
| events
| userlog (id : nat).

(** ** Channels *)

(** The two channels of a stage are unbuffered ([make(dataSink)],
    [make(chan struct{})]); all that is left of their state is whether they
    were closed. *)
Inductive chan : Type :=
| chan_open
| chan_closed.

(** A handle on a subscriber stage (a [Stream] held in [pubs]). *)
Definition StreamRef : Type := string.

(** A goroutine started by the fan-out: [go sm.Error(ctx, e)] or
    [go sm.Data(ctx, v)]. *)
Inductive gocall : Type :=
| go_Error (sm : StreamRef) (c : Context) (e : error)
| go_Data (sm : StreamRef) (c : Context) (v : value).

(** Which entry point a blocked sender came through. *)
Inductive entry : Type :=
| via_Data
| via_Error.

(** A goroutine running [worker]: not yet past its first statement, waiting
    in [range s.data], holding a payload it has received, or returned. *)
Inductive goroutine : Type :=
| W_new
| W_recv
| W_busy (load : payload)
| W_done.

(** One step of one goroutine.  [CallData], [CallError], [CallShutdown] and
    [CallStream] are a caller entering a method and running it to its first
    blocking statement (or to its end); [Handoff i j] is the rendezvous on
    [s.data] of the [i]-th blocked sender with worker [j], after which the
    sender runs to the end of its method; [WorkerStart], [WorkerRun] and
    [WorkerExit] are worker [j] entering its loop, running the loop body on
    the payload it holds, and leaving the loop once [s.data] is closed;
    [ShutdownReturn] is the caller of [Shutdown] passing [s.wg.Wait()]. *)
Inductive action : Type :=
| CallData (c : Context) (v : value)
| CallError (c : Context) (e : error)
| CallShutdown
| CallStream (sm : StreamRef)
| WorkerStart (j : nat)
| Handoff (i j : nat)
| WorkerRun (j : nat)
| WorkerExit (j : nat)
| ShutdownReturn.

(** [Stat]. *)
Record Stat : Type := mkStat {
  TotalWorkersRunning : Z;
  TotalWorkers : Z;
  Pending : Z;
  Completed : Z;
  Closed : Z
}.

Section Stage.

(** What the Processor's closure has captured (for the bridges of
    [Receive] and [ReceiveError]: the channel [mc]). *)
Context {E : Type}.

(** The code of a [func(context.Context, error, interface{}) (interface{},
    error)]: it may panic, and it may change what it has captured. *)
Definition handler_fn : Type :=
  Context -> error -> value -> E -> outcome (value * error) * E.

(** [ProcHandler]: a function value, that is code and captured variables. *)
Record ProcHandler : Type := mkProcHandler {
  captured : E;
  code : handler_fn
}.

(** [Proc]: the interface with the one method [Do]; a value of it is the
    method together with the state of its receiver. *)
Record Proc : Type := mkProc {
  Proc_env : E;
  Proc_Do : handler_fn
}.

(** [doworker]: the proxy [struct { p ProcHandler }] ... *)
Record doworker : Type := mkDoworker {
  p : ProcHandler
}.

(** ... and its method [Do], which calls the handler registered to it. *)
Definition doworker_Do (do : doworker) : handler_fn :=
  fun c e v => code (p do) c e v.

(** [doworker{h}] as a [Proc]. *)
Definition doworker_Proc (do : doworker) : Proc :=
  {| Proc_env := captured (p do); Proc_Do := doworker_Do do |}.

(** [stream] ([ctx], which is never assigned, and the mutex [pl], which
    every step releases before it ends, are left out). *)
Record stream : Type := mkStream {
  log : Log;
  uuid : string;
  closed : Z;
  processed : Z;
  pending : Z;
  shutdownAfterpending : Z;
  workersUp : Z;
  workers : Z;
  proc : option Proc;
  data : chan;
  nc : chan;
  wg : Z;
  pubs : list StreamRef
}.

(** The stage and the goroutines around it. *)
Record world : Type := mkWorld {
  st : stream;
  logged : list logcall;
  pool : list goroutine;
  senders : list (entry * payload);
  waiting : bool;
  spawned : list gocall
}.

(** *** Field updates *)

Definition with_closed (v : Z) (s : stream) : stream :=
  mkStream (log s) (uuid s) v (processed s) (pending s)
    (shutdownAfterpending s) (workersUp s) (workers s) (proc s) (data s)
    (nc s) (wg s) (pubs s).
Definition with_processed (v : Z) (s : stream) : stream :=
  mkStream (log s) (uuid s) (closed s) v (pending s)
    (shutdownAfterpending s) (workersUp s) (workers s) (proc s) (data s)
    (nc s) (wg s) (pubs s).
Definition with_pending (v : Z) (s : stream) : stream :=
  mkStream (log s) (uuid s) (closed s) (processed s) v
    (shutdownAfterpending s) (workersUp s) (workers s) (proc s) (data s)
    (nc s) (wg s) (pubs s).
Definition with_workersUp (v : Z) (s : stream) : stream :=
  mkStream (log s) (uuid s) (closed s) (processed s) (pending s)
    (shutdownAfterpending s) v (workers s) (proc s) (data s)
    (nc s) (wg s) (pubs s).
Definition with_proc (v : option Proc) (s : stream) : stream :=
  mkStream (log s) (uuid s) (closed s) (processed s) (pending s)
    (shutdownAfterpending s) (workersUp s) (workers s) v (data s)
    (nc s) (wg s) (pubs s).
Definition with_data (v : chan) (s : stream) : stream :=
  mkStream (log s) (uuid s) (closed s) (processed s) (pending s)
    (shutdownAfterpending s) (workersUp s) (workers s) (proc s) v
    (nc s) (wg s) (pubs s).
Definition with_nc (v : chan) (s : stream) : stream :=
  mkStream (log s) (uuid s) (closed s) (processed s) (pending s)
    (shutdownAfterpending s) (workersUp s) (workers s) (proc s) (data s)
    v (wg s) (pubs s).
Definition with_wg (v : Z) (s : stream) : stream :=
  mkStream (log s) (uuid s) (closed s) (processed s) (pending s)
    (shutdownAfterpending s) (workersUp s) (workers s) (proc s) (data s)
    (nc s) v (pubs s).
Definition with_pubs (v : list StreamRef) (s : stream) : stream :=
  mkStream (log s) (uuid s) (closed s) (processed s) (pending s)
    (shutdownAfterpending s) (workersUp s) (workers s) (proc s) (data s)
    (nc s) (wg s) v.

Definition with_st (v : stream) (w : world) : world :=
  mkWorld v (logged w) (pool w) (senders w) (waiting w) (spawned w).
Definition with_logged (v : list logcall) (w : world) : world :=
  mkWorld (st w) v (pool w) (senders w) (waiting w) (spawned w).
Definition with_pool (v : list goroutine) (w : world) : world :=
  mkWorld (st w) (logged w) v (senders w) (waiting w) (spawned w).
Definition with_senders (v : list (entry * payload)) (w : world) : world :=
  mkWorld (st w) (logged w) (pool w) v (waiting w) (spawned w).
Definition with_waiting (v : bool) (w : world) : world :=
  mkWorld (st w) (logged w) (pool w) (senders w) v (spawned w).
Definition with_spawned (v : list gocall) (w : world) : world :=
  mkWorld (st w) (logged w) (pool w) (senders w) (waiting w) v.

(** *** The monad of a goroutine's statements

    A statement reads and writes the world and may panic; a panic keeps the
    world it happened in, since a deferred recovery continues from there. *)
Inductive result (A : Type) : Type :=
| Ok (a : A) (w : world)
| Fault (msg : string) (w : world).
Arguments Ok {A} a w.
Arguments Fault {A} msg w.

Definition M (A : Type) : Type := world -> result A.

Definition ret {A : Type} (a : A) : M A := fun w => Ok a w.

Definition bind {A B : Type} (m : M A) (k : A -> M B) : M B :=
  fun w =>
    match m w with
    | Ok a w' => k a w'
    | Fault msg w' => Fault msg w'
    end.

Definition panic {A : Type} (msg : string) : M A := fun w => Fault msg w.

Definition update (f : stream -> stream) : M unit :=
  fun w => Ok tt (with_st (f (st w)) w).

Notation "x <- m ;; k" := (bind m (fun x => k))
  (at level 100, m at next level, k at level 200, right associativity,
   only parsing).
Notation "m ;;; k" := (bind m (fun _ => k))
  (at level 100, k at level 200, right associativity, only parsing).

(** *** Primitives of the runtime and of [sync/atomic] *)

(** The four fields that are only touched through [sync/atomic]. *)
Inductive counter : Type :=
| c_closed
| c_processed
| c_pending
| c_workersUp.

Definition counter_get (c : counter) (s : stream) : Z :=
  match c with
  | c_closed => closed s
  | c_processed => processed s
  | c_pending => pending s
  | c_workersUp => workersUp s
  end.

Definition counter_set (c : counter) (v : Z) (s : stream) : stream :=
  match c with
  | c_closed => with_closed v s
  | c_processed => with_processed v s
  | c_pending => with_pending v s
  | c_workersUp => with_workersUp v s
  end.

Definition LoadInt64 (c : counter) : M Z :=
  fun w => Ok (counter_get c (st w)) w.

Definition StoreInt64 (c : counter) (v : Z) : M unit :=
  update (counter_set c v).

Definition AddInt64 (c : counter) (delta : Z) : M unit :=
  update (fun s => counter_set c (wrap64 (counter_get c s + delta)) s).

(** [s.log.Log(..)] and [s.log.Error(..)]: the call is handed to the logger. *)
Definition log_Log (context name message : string) (args : list arg)
  : M unit :=
  fun w => Ok tt (with_logged (logged w ++ [LogLog context name message args]) w).

Definition log_Error (context name : string) (e : error) (message : string)
    (args : list arg) : M unit :=
  fun w =>
    Ok tt (with_logged (logged w ++ [LogError context name e message args]) w).

(** [close(s.data)].  Closing a closed channel panics; closing a channel a
    goroutine is blocked sending on makes that goroutine panic, and a panic
    nobody recovers ends the program.  The panic is the sender's, not the
    closer's: the model takes it that the sender's goroutine does not
    recover it, and records the end of the program at the step that closes
    the channel. *)
Definition close_data : M unit :=
  fun w =>
    match data (st w) with
    | chan_closed => Fault "close of closed channel" w
    | chan_open =>
        match senders w with
        | [] => Ok tt (with_st (with_data chan_closed (st w)) w)
        | _ :: _ =>
            Fault "send on closed channel"
              (with_st (with_data chan_closed (st w)) w)
        end
    end.

(** [close(s.nc)]. *)
Definition close_nc : M unit :=
  fun w =>
    match nc (st w) with
    | chan_closed => Fault "close of closed channel" w
    | chan_open => Ok tt (with_st (with_nc chan_closed (st w)) w)
    end.

(** [s.data <- &payload{..}]: the channel has no buffer, so the sender
    stays blocked until a worker takes the payload. *)
Definition send (k : entry) (load : payload) : M unit :=
  fun w =>
    match data (st w) with
    | chan_closed => Fault "send on closed channel" w
    | chan_open => Ok tt (with_senders (senders w ++ [(k, load)]) w)
    end.

(** [s.wg.Add(delta)] and [s.wg.Done()]. *)
Definition wg_Add (delta : Z) : M unit :=
  fun w =>
    if wg (st w) + delta <? 0
    then Fault "sync: negative WaitGroup counter" w
    else Ok tt (with_st (with_wg (wg (st w) + delta) (st w)) w).

Definition wg_Done : M unit := wg_Add (-1).

(** [s.wg.Wait()]: the caller stays blocked until the counter is zero. *)
Definition wg_Wait : M unit := fun w => Ok tt (with_waiting true w).

(** [go f(..)]. *)
Definition go (c : gocall) : M unit :=
  fun w => Ok tt (with_spawned (spawned w ++ [c]) w).

(** [for _, sm := range s.pubs { .. }]. *)
Fixpoint for_range {A : Type} (l : list A) (body : A -> M unit) : M unit :=
  match l with
  | [] => ret tt
  | x :: l' => body x ;;; for_range l' body
  end.

(** [s.proc.Do(ctx, err, d)]: a method call on the interface value held in
    [proc]; on a nil interface it is a nil dereference. *)
Definition proc_Do (c : Context) (e : error) (v : value)
  : M (value * error) :=
  fun w =>
    match proc (st w) with
    | None => Fault "invalid memory address or nil pointer dereference" w
    | Some pr =>
        let r := Proc_Do pr c e v (Proc_env pr) in
        let w' := with_st (with_proc (Some (mkProc (snd r) (Proc_Do pr)))
                             (st w)) w in
        match fst r with
        | Done a => Ok a w'
        | Panic msg => Fault msg w'
        end
    end.

(** Modelled from the spec: package [panics] ([panics.Defer]) is not among
    the sources.  [Defer(op, logfn)] runs [op]; a fault raised by [op] is
    intercepted there, handed to [logfn] as the buffer that describes it,
    and [Defer] returns normally, so that its caller continues. *)
Definition Defer (op : M unit) (logfn : string -> M unit) : M unit :=
  fun w =>
    match op w with
    | Ok a w' => Ok a w'
    | Fault msg w' => logfn msg w'
    end.

(** ** The methods of [stream] *)

(** [Stats]. *)
Definition Stats (s : stream) : Stat :=
  {| TotalWorkersRunning := workersUp s;
     TotalWorkers := wrap64 (workers s + 1);
     Pending := pending s;
     Completed := processed s;
     Closed := closed s |}.

(** [CloseNotify]. *)
Definition CloseNotify (s : stream) : chan := nc s.

(** [UUID]. *)
Definition UUID (s : stream) : string := uuid s.

(** [Stream]. *)
Definition Stream (sm : StreamRef) : M StreamRef :=
  update (fun s => with_pubs (pubs s ++ [sm]) s) ;;;
  ret sm.

(** [Data], up to the send it blocks in ... *)
Definition Data (c : Context) (v : value) : M unit :=
  cl <- LoadInt64 c_closed ;;
  if 0 <? cl then ret tt else
  log_Log "sumex.Stream" "Data" "Started : Data Recieved : %s"
    [ASprintf "%+v" (AValue v)] ;;;
  AddInt64 c_pending 1 ;;;
  send via_Data {| ctx := c; d := v; err := None |}.

(** ... and after a worker has taken the payload. *)
Definition Data_sent : M unit :=
  AddInt64 c_pending (-1) ;;;
  log_Log "sumex.Stream" "Data" "Completed" [].

(** [Error], up to the send it blocks in ... *)
Definition Error (c : Context) (e : error) : M unit :=
  cl <- LoadInt64 c_closed ;;
  if negb (cl =? 0) then ret tt else
  log_Error "sumex.Stream" "Error" e "Started : Error Recieved : %s"
    [ASprintf "%+v" (AError e)] ;;;
  AddInt64 c_pending 1 ;;;
  send via_Error {| ctx := c; err := e; d := VNil |}.

(** ... and after a worker has taken the payload. *)
Definition Error_sent : M unit :=
  AddInt64 c_pending (-1) ;;;
  log_Log "sumex.Stream" "Error" "Completed" [].

(** [Shutdown], up to [s.wg.Wait()] ... *)
Definition Shutdown : M unit :=
  log_Log "Sumex.Stream" "Shutdown" "Started : Shutdown Requested" [] ;;;
  cl <- LoadInt64 c_closed ;;
  if 0 <? cl then
    log_Log "Sumex.Stream" "Stats"
      "Completed : Shutdown Request : Previously Done" []
  else
  StoreInt64 c_closed 1 ;;;
  AddInt64 c_pending 1 ;;;
  close_data ;;;
  AddInt64 c_pending (-1) ;;;
  wg_Wait.

(** ... and from there on: the last log call, then the deferred
    [close(s.nc)]. *)
Definition Shutdown_joined : M unit :=
  log_Log "Sumex.Stream" "Shutdown" "Completed : Shutdown Requested" [] ;;;
  close_nc ;;;
  fun w => Ok tt (with_waiting false w).

(** [worker]: the statements before the loop ... *)
Definition worker_enter : M unit :=
  wg_Add 1 ;;;
  AddInt64 c_workersUp 1.

(** ... the body of [for load := range s.data] ... *)
Definition worker_body (load : payload) : M unit :=
  Defer
    (r <- proc_Do (ctx load) (err load) (d load) ;;
     log_Log "sumex.Stream" "worker"
       "Info : Res : { Response: %+s, Error: %+s}"
       [AValue (fst r); AError (snd r)] ;;;
     AddInt64 c_processed 1 ;;;
     fun w =>
       match snd r with
       | Some _ =>
           for_range (pubs (st w))
             (fun sm => go (go_Error sm (ctx load) (snd r))) w
       | None =>
           for_range (pubs (st w))
             (fun sm => go (go_Data sm (ctx load) (fst r))) w
       end)
    (fun buf =>
       log_Error "sumex.Stream" "worker" (errors_New "Panic") "Panic : %+s"
         [ABytes buf]).

(** ... and the statements after the loop, with the two deferred calls. *)
Definition worker_leave : M unit :=
  log_Log "sumex.Stream" "worker" "Info : Goroutine : Shutdown" [] ;;;
  AddInt64 c_workersUp (-1) ;;;
  wg_Done.

(** [worker] as a whole, for a goroutine to which the intake channel hands
    [loads], in this order, before it is closed. *)
Definition worker (loads : list payload) : M unit :=
  worker_enter ;;;
  for_range loads worker_body ;;;
  worker_leave.

(** [New].  The fresh UUID is an argument; each [go sm.worker()] adds a
    goroutine to the pool. *)
Definition New (l : option Log) (u : string) (w : Z) (pr : option Proc)
  : world :=
  let w := if w <=? 0 then 1 else w in
  let l := match l with None => events | Some l' => l' end in
  let sm :=
    {| log := l; uuid := u; closed := 0; processed := 0; pending := 0;
       shutdownAfterpending := 0; workersUp := 0; workers := w; proc := pr;
       data := chan_open; nc := chan_open; wg := 0; pubs := [] |} in
  {| st := sm; logged := []; pool := replicate (Z.to_nat w) W_new;
     senders := []; waiting := false; spawned := [] |}.

(** ** Scheduling *)

Definition set_goroutine (j : nat) (g : goroutine) : M unit :=
  fun w => Ok tt (with_pool (<[j := g]> (pool w)) w).

Definition take_sender (i : nat) : M unit :=
  fun w => Ok tt (with_senders (delete i (senders w)) w).

(** [step a w] is [None] when [a] cannot happen in [w] (no such goroutine,
    or it is blocked); otherwise the world after it, or the fault that ends
    the program.

    Every action is one atomic step, which is coarser than the program in
    two places.  [CallShutdown] runs the load of the closed flag, its store
    and [close(s.data)] in one step, so that two callers never both pass the
    test.  [ShutdownReturn] happens at an instant at which the counter of
    the WaitGroup is zero and runs the rest of [Shutdown] in the same step,
    so that no worker runs [s.wg.Add(1)] between the return of
    [s.wg.Wait()] and the return of [Shutdown]. *)
Definition step (a : action) (w : world) : option (result unit) :=
  match a with
  | CallData c v => Some (Data c v w)
  | CallError c e => Some (Error c e w)
  | CallShutdown => Some (Shutdown w)
  | CallStream sm => Some ((Stream sm ;;; ret tt) w)
  | WorkerStart j =>
      match pool w !! j with
      | Some W_new => Some ((worker_enter ;;; set_goroutine j W_recv) w)
      | _ => None
      end
  | Handoff i j =>
      match senders w !! i, pool w !! j, data (st w) with
      | Some (k, load), Some W_recv, chan_open =>
          Some ((take_sender i ;;;
                 set_goroutine j (W_busy load) ;;;
                 match k with
                 | via_Data => Data_sent
                 | via_Error => Error_sent
                 end) w)
      | _, _, _ => None
      end
  | WorkerRun j =>
      match pool w !! j with
      | Some (W_busy load) =>
          Some ((worker_body load ;;; set_goroutine j W_recv) w)
      | _ => None
      end
  | WorkerExit j =>
      match pool w !! j, data (st w) with
      | Some W_recv, chan_closed =>
          Some ((worker_leave ;;; set_goroutine j W_done) w)
      | _, _ => None
      end
  | ShutdownReturn =>
      if waiting w && (wg (st w) =? 0)
      then Some (Shutdown_joined w)
      else None
  end.

(** A schedule runs until it ends, is impossible, or the program faults. *)
Fixpoint run (tr : list action) (w : world) : option (result unit) :=
  match tr with
  | [] => Some (Ok tt w)
  | a :: tr' =>
      match step a w with
      | Some (Ok _ w') => run tr' w'
      | Some (Fault msg w') => Some (Fault msg w')
      | None => None
      end
  end.

(** The world a statement leaves behind. *)
Definition world_of {A : Type} (r : result A) : world :=
  match r with
  | Ok _ w => w
  | Fault _ w => w
  end.

End Stage.

Arguments handler_fn : clear implicits.
Arguments ProcHandler : clear implicits.
Arguments Proc : clear implicits.
Arguments doworker : clear implicits.
Arguments stream : clear implicits.
Arguments world : clear implicits.
Arguments result : clear implicits.
Arguments M : clear implicits.
Arguments Ok {E A} a w.
Arguments Fault {E A} msg w.
Arguments run {E} tr w.
Arguments step {E} a w.

(** ** Combinators *)

(** [Do]: a stage from a function.  The result is the new stage [ms] and,
    when there is one, the upstream stage [sm] after [sm.Stream(ms)]. *)
Definition Do {E E' : Type} (sm : option (world E')) (u : string)
    (workers : Z) (h : option (ProcHandler E))
  : outcome (world E * option (world E')) :=
  match h with
  | None => Panic "nil ProcHandler"
  | Some h' =>
      let log := match sm with None => Some events | Some _ => None end in
      let ms := New log u workers (Some (doworker_Proc (mkDoworker h'))) in
      Done (ms,
            match sm with
            | Some up => Some (world_of (Stream u up))
            | None => None
            end)
  end.

(** [Identity]: the stage that returns what it receives (its [l] is not
    used by the source either). *)
Definition Identity (u : string) (w : Z) (l : option Log)
  : outcome (world unit * option (world unit)) :=
  Do None u w
    (Some {| captured := tt; code := fun _ e v env => (Done (v, e), env) |}).

(** A channel of the bridges, [make(chan A)]: what was sent on it so far,
    and whether it was closed. *)
Record bchan (A : Type) : Type := mkBchan {
  carried : list A;
  bstate : chan
}.
Arguments mkBchan {A} carried bstate.
Arguments carried {A} b.
Arguments bstate {A} b.

(** [mc <- x]. *)
Definition bsend {A : Type} (x : A) (mc : bchan A) : outcome unit * bchan A :=
  match bstate mc with
  | chan_closed => (Panic "send on closed channel", mc)
  | chan_open => (Done tt, mkBchan (carried mc ++ [x]) (bstate mc))
  end.

(** The goroutine the bridges start,
    [go func() { <-sm.CloseNotify(); ms.Shutdown(); close(mc) }()], by the
    statement it is at: blocked in the receive from the upstream's
    notification channel, about to call [ms.Shutdown()], inside that call
    and blocked in its [s.wg.Wait()], about to [close(mc)], or returned. *)
Inductive closer : Type :=
| closer_recv
| closer_call
| closer_wait
| closer_close
| closer_done.

(** What a bridge consists of once [Receive] or [ReceiveError] has
    returned: the upstream stage [sm] (nil, or a stage with the bridge
    registered), the stage [ms] whose Processor holds the channel [mc], and
    the goroutine that closes [mc]. *)
Record bridged (A E' : Type) : Type := mkBridged {
  bridged_up : option (world E');
  bridged_ms : world (bchan A);
  bridged_closer : closer
}.
Arguments mkBridged {A E'} bridged_up bridged_ms bridged_closer.
Arguments bridged_up {A E'} b.
Arguments bridged_ms {A E'} b.
Arguments bridged_closer {A E'} b.

(** What the bridges do after [Do] has returned: they start the closing
    goroutine, which has yet to run its first statement, and return. *)
Definition start_closer {A E' : Type}
    (r : outcome (world (bchan A) * option (world E')))
  : outcome (bridged A E') :=
  match r with
  | Panic msg => Panic msg
  | Done (ms, up) => Done (mkBridged up ms closer_recv)
  end.

(** The function [Receive] hands to [Do]. *)
Definition Receive_handler : ProcHandler (bchan value) :=
  {| captured := mkBchan [] chan_open;
     code := fun _ _ v mc =>
       match bsend v mc with
       | (Done _, mc') => (Done (VNil, None), mc')
       | (Panic msg, mc') => (Panic msg, mc')
       end |}.

(** [Receive]: the stage [ms] whose only worker forwards onto [mc] (the
    channel is what [ms]'s Processor has captured), and the goroutine that
    closes [mc] when the upstream stage has shut down. *)
Definition Receive {E' : Type} (sm : option (world E')) (u : string)
  : outcome (bridged value E') :=
  start_closer (Do sm u 1 (Some Receive_handler)).

(** The function [ReceiveError] hands to [Do]. *)
Definition ReceiveError_handler : ProcHandler (bchan error) :=
  {| captured := mkBchan [] chan_open;
     code := fun _ e _ mc =>
       match e with
       | Some _ =>
           match bsend e mc with
           | (Done _, mc') => (Done (VNil, None), mc')
           | (Panic msg, mc') => (Panic msg, mc')
           end
       | None => (Done (VNil, None), mc)
       end |}.

(** [ReceiveError]: the same with the errors. *)
Definition ReceiveError {E' : Type} (sm : option (world E')) (u : string)
  : outcome (bridged error E') :=
  start_closer (Do sm u 1 (Some ReceiveError_handler)).

(** The channel [mc] of a bridge, read off the Processor of its stage. *)
Definition bridge_chan {A : Type} (w : world (bchan A)) : option (bchan A) :=
  match proc (st w) with
  | Some pr => Some (Proc_env pr)
  | None => None
  end.

(** [close(mc)] on the channel the Processor of [ms] holds. *)
Definition close_mc {A : Type} (ms : world (bchan A))
  : outcome (world (bchan A)) :=
  match proc (st ms) with
  | Some pr =>
      match bstate (Proc_env pr) with
      | chan_closed => Panic "close of closed channel"
      | chan_open =>
          Done (with_st
                  (with_proc
                     (Some (mkProc (mkBchan (carried (Proc_env pr)) chan_closed)
                              (Proc_Do pr)))
                     (st ms))
                  ms)
      end
  | None => Done ms
  end.

(** The next statement of the closing goroutine; [None] while it is
    blocked, [Panic] when it ends the program.  [sm.CloseNotify()] on a nil
    [sm] is a nil dereference, in a goroutine where nobody recovers it.
    [ms.Shutdown()] returns at once when the closed flag of [ms] is already
    set and waits in [s.wg.Wait()] otherwise, until the return of that
    [Shutdown] (the step [ShutdownReturn] of [ms]) lets it go on. *)
Definition closer_step {A E' : Type} (b : bridged A E')
  : option (outcome (bridged A E')) :=
  match bridged_closer b with
  | closer_recv =>
      match bridged_up b with
      | None =>
          Some (Panic "invalid memory address or nil pointer dereference")
      | Some up =>
          match CloseNotify (st up) with
          | chan_closed =>
              Some (Done (mkBridged (bridged_up b) (bridged_ms b) closer_call))
          | chan_open => None
          end
      end
  | closer_call =>
      match Shutdown (bridged_ms b) with
      | Ok _ ms' =>
          Some (Done (mkBridged (bridged_up b) ms'
                        (if 0 <? closed (st (bridged_ms b))
                         then closer_close else closer_wait)))
      | Fault msg _ => Some (Panic msg)
      end
  | closer_wait =>
      if waiting (bridged_ms b) then None
      else Some (Done (mkBridged (bridged_up b) (bridged_ms b) closer_close))
  | closer_close =>
      match close_mc (bridged_ms b) with
      | Done ms' => Some (Done (mkBridged (bridged_up b) ms' closer_done))
      | Panic msg => Some (Panic msg)
      end
  | closer_done => None
  end.

(** One step of a bridge: a step of the upstream stage, a step of the
    bridge stage (the calls the upstream's fan-out makes on it are its
    [CallData] and [CallError]), or the next statement of the closing
    goroutine.  A fault of either stage is a panic nobody recovers. *)
Inductive bridge_action : Type :=
| OnUpstream (a : action)
| OnBridge (a : action)
| CloserStep.

Definition bstep {A E' : Type} (x : bridge_action) (b : bridged A E')
  : option (outcome (bridged A E')) :=
  match x with
  | OnUpstream a =>
      match bridged_up b with
      | None => None
      | Some up =>
          match step a up with
          | Some (Ok _ up') =>
              Some (Done (mkBridged (Some up') (bridged_ms b)
                            (bridged_closer b)))
          | Some (Fault msg _) => Some (Panic msg)
          | None => None
          end
      end
  | OnBridge a =>
      match step a (bridged_ms b) with
      | Some (Ok _ ms') =>
          Some (Done (mkBridged (bridged_up b) ms' (bridged_closer b)))
      | Some (Fault msg _) => Some (Panic msg)
      | None => None
      end
  | CloserStep => closer_step b
  end.

(** A schedule of a bridge. *)
Fixpoint brun {A E' : Type} (tr : list bridge_action) (b : bridged A E')
  : option (outcome (bridged A E')) :=
  match tr with
  | [] => Some (Done b)
  | x :: tr' =>
      match bstep x b with
      | Some (Done b') => brun tr' b'
      | Some (Panic msg) => Some (Panic msg)
      | None => None
      end
  end.

(** ** The invariant of a stage

    [pending] counts the senders blocked on the intake channel; the closed
    flag and the two channels move together; nobody waits in [Shutdown]
    once the notification channel is closed. *)
Record inv {E : Type} (w : world E) : Prop := mkInv {
  inv_pending : pending (st w) = wrap64 (Z.of_nat (length (senders w)));
  inv_open :
    data (st w) = chan_open ->
    closed (st w) = 0 /\ nc (st w) = chan_open /\ waiting w = false;
  inv_closed :
    data (st w) = chan_closed -> closed (st w) = 1 /\ senders w = [];
  inv_waiting : waiting w = true -> nc (st w) = chan_open
}.

(** What the fan-out of one unit starts: one goroutine per subscriber, on
    [Error] when the Processor returned an error, on [Data] otherwise. *)
Definition fanout (load : payload) (res : value) (er : error)
    (subs : list StreamRef) : list gocall :=
  match er with
  | Some _ => map (fun sm => go_Error sm (ctx load) er) subs
  | None => map (fun sm => go_Data sm (ctx load) res) subs
  end.

(** The log call of the recovery handler of [worker]. *)
Definition panic_logcall (buf : string) : logcall :=
  LogError "sumex.Stream" "worker" (errors_New "Panic") "Panic : %+s"
    [ABytes buf].

(** How often a schedule lets [Shutdown] return, that is how often
    [close(s.nc)] runs and the notification of [CloseNotify] fires. *)
Fixpoint notifications (tr : list action) : nat :=
  match tr with
  | [] => 0
  | ShutdownReturn :: tr' => S (notifications tr')
  | _ :: tr' => notifications tr'
  end.

(** ** Stages used as examples *)

(** The world a schedule leaves. *)
Definition after {E : Type} (tr : list action) (w : world E) : world E :=
  match run tr w with
  | Some r => world_of r
  | None => w
  end.

(** A Processor that returns what it receives. *)
Definition echo : Proc unit :=
  {| Proc_env := tt; Proc_Do := fun _ e v env => (Done (v, e), env) |}.

(** A Processor that returns an error for any input. *)
Definition failing : Proc unit :=
  {| Proc_env := tt;
     Proc_Do := fun _ _ v env => (Done (v, errors_New "bad"), env) |}.

(** A Processor that panics on any input. *)
Definition faulty : Proc unit :=
  {| Proc_env := tt; Proc_Do := fun _ _ _ env => (Panic "boom", env) |}.

(** A Processor that panics on the value 1 and returns any other input. *)
Definition picky : Proc unit :=
  {| Proc_env := tt;
     Proc_Do := fun _ e v env =>
       match v with
       | VInt 1 => (Panic "boom", env)
       | _ => (Done (v, e), env)
       end |}.

(** A stage with one worker and the subscriber ["sub"], whose worker holds
    the submitted value 42. *)
Definition one_unit (pr : option (Proc unit)) : world unit :=
  after [CallStream "sub"; WorkerStart 0; CallData 7 (VInt 42); Handoff 0 0]
    (New None "stage" 1 pr).

(** A stage with one worker that holds the value 1 while the caller that
    submitted the value 2 is blocked on the intake channel. *)
Definition two_units : world unit :=
  after [WorkerStart 0; CallData 1 (VInt 1); Handoff 0 0; CallData 2 (VInt 2)]
    (New None "stage" 1 (Some picky)).

(** A value and an error go through a stage, which is then shut down. *)
Definition full_schedule : list action :=
  [CallStream "sub"; WorkerStart 0;
   CallData 7 (VInt 42); Handoff 0 0; WorkerRun 0;
   CallError 8 (errors_New "bad"); Handoff 0 0; WorkerRun 0;
   CallShutdown; WorkerExit 0].

Definition shut_down : world unit :=
  after (full_schedule ++ [ShutdownReturn]) (New None "stage" 1 (Some echo)).

(** The bridge of [ReceiveError] on its own, and a schedule that feeds it a
    value and an error. *)
Definition bridge : world (bchan error) :=
  New None "bridge" 1 (Some (doworker_Proc (mkDoworker ReceiveError_handler))).

Definition bridge_schedule : list action :=
  [WorkerStart 0;
   CallData 7 (VInt 42); Handoff 0 0; WorkerRun 0;
   CallError 8 (errors_New "bad"); Handoff 0 0; WorkerRun 0].

(** ** Reading a schedule and a pool *)

(** The subscribers a schedule registers, in the order of the calls. *)
Fixpoint subscribers_of (tr : list action) : list StreamRef :=
  match tr with
  | [] => []
  | CallStream sm :: tr' => sm :: subscribers_of tr'
  | _ :: tr' => subscribers_of tr'
  end.

(** How many sends on the intake channel a schedule completes, and how many
    times it lets a worker run the loop body. *)
Fixpoint handoffs (tr : list action) : nat :=
  match tr with
  | [] => 0
  | Handoff _ _ :: tr' => S (handoffs tr')
  | _ :: tr' => handoffs tr'
  end.

Fixpoint runs (tr : list action) : nat :=
  match tr with
  | [] => 0
  | WorkerRun _ :: tr' => S (runs tr')
  | _ :: tr' => runs tr'
  end.

(** Whether a schedule has a call of [Shutdown], and whether it lets one
    return. *)
Fixpoint calls_Shutdown (tr : list action) : bool :=
  match tr with
  | [] => false
  | CallShutdown :: _ => true
  | _ :: tr' => calls_Shutdown tr'
  end.

Definition returns_Shutdown (tr : list action) : bool :=
  match notifications tr with
  | O => false
  | S _ => true
  end.

(** A worker is running from its first statement to its return. *)
Definition running (g : goroutine) : bool :=
  match g with
  | W_recv | W_busy _ => true
  | W_new | W_done => false
  end.

Definition holds_unit (g : goroutine) : bool :=
  match g with
  | W_busy _ => true
  | _ => false
  end.

Definition returned (g : goroutine) : bool :=
  match g with
  | W_done => true
  | _ => false
  end.

Fixpoint count_if (f : goroutine -> bool) (l : list goroutine) : nat :=
  match l with
  | [] => 0
  | g :: l' => (if f g then 1 else 0) + count_if f l'
  end.

(** The units the workers run the loop body on, in the order of the
    schedule. *)
Fixpoint served {E : Type} (tr : list action) (w : world E) : list payload :=
  match tr with
  | [] => []
  | a :: tr' =>
      match step a w with
      | Some (Ok _ w') =>
          match a with
          | WorkerRun j =>
              match pool w !! j with
              | Some (W_busy load) => load :: served tr' w'
              | _ => served tr' w'
              end
          | _ => served tr' w'
          end
      | _ => []
      end
  end.

(** The stream a started call is made on. *)
Definition target (c : gocall) : StreamRef :=
  match c with
  | go_Error sm _ _ => sm
  | go_Data sm _ _ => sm
  end.

(** What the Processor has captured after it was called on [loads] in
    turn. *)
Definition env_after {E : Type} (f : handler_fn E) (loads : list payload)
    (e0 : E) : E :=
  fold_left (fun e load => snd (f (ctx load) (err load) (d load) e)) loads e0.

(** What the pool and the counters of the workers keep true: the WaitGroup
    and [workersUp] count the running workers, the pool has the configured
    size, and no worker has returned while the intake channel is open. *)
Record pool_inv {E : Type} (w : world E) : Prop := mkPoolInv {
  pool_wg : wg (st w) = Z.of_nat (count_if running (pool w));
  pool_up : workersUp (st w) = wrap64 (Z.of_nat (count_if running (pool w)));
  pool_size : length (pool w) = Z.to_nat (workers (st w));
  pool_workers : 1 <= workers (st w);
  pool_open : data (st w) = chan_open -> count_if returned (pool w) = 0%nat
}.

(** The steps that belong to the workers of the stage, as opposed to the
    calls made on it from outside. *)
Definition worker_step (a : action) : bool :=
  match a with
  | WorkerStart _ | WorkerRun _ | WorkerExit _ => true
  | _ => false
  end.

(** The errors among the units, in order, without the nil ones. *)
Fixpoint errors_of (loads : list payload) : list error :=
  match loads with
  | [] => []
  | load :: loads' =>
      match err load with
      | Some _ => err load :: errors_of loads'
      | None => errors_of loads'
      end
  end.

(** ** More example stages *)

(** [Shutdown] waits while the only worker still holds a unit. *)
Definition draining : world unit :=
  after [WorkerStart 0; CallData 7 (VInt 42); Handoff 0 0; CallShutdown]
    (New None "stage" 1 (Some echo)).

(** The stage of [Identity], and the same with a subscriber and a unit in
    the hands of its worker. *)
Definition identity_stage : world unit :=
  match Identity "id" 1 None with
  | Done (ms, _) => ms
  | Panic _ => New None "id" 1 None
  end.

Definition identity_schedule : list action :=
  [CallStream "sub"; WorkerStart 0; CallData 7 (VStr "a"); Handoff 0 0].

(** An upstream stage, and the bridge of [Receive] on it. *)
Definition upstream : world unit := New None "up" 1 (Some echo).

Definition value_bridge : world (bchan value) :=
  New None "bridge" 1 (Some (doworker_Proc (mkDoworker Receive_handler))).

(** The bridge of [ReceiveError] on [upstream], and a schedule in which it
    is fed a value and an error, the upstream shuts down and the goroutine
    of the bridge shuts the bridge stage down and closes the channel. *)
Definition error_bridge : bridged error unit :=
  mkBridged (Some (world_of (Stream "bridge" upstream))) bridge closer_recv.

(** The bridge of [ReceiveError] on a nil stream. *)
Definition orphan_bridge : bridged error unit :=
  mkBridged None bridge closer_recv.

Definition closing_schedule : list bridge_action :=
  [OnBridge (WorkerStart 0);
   OnBridge (CallData 7 (VInt 42)); OnBridge (Handoff 0 0);
   OnBridge (WorkerRun 0);
   OnBridge (CallError 8 (errors_New "bad")); OnBridge (Handoff 0 0);
   OnBridge (WorkerRun 0);
   OnUpstream CallShutdown; OnUpstream ShutdownReturn;
   CloserStep; CloserStep;
   OnBridge (WorkerExit 0); OnBridge ShutdownReturn;
   CloserStep; CloserStep].

(** The bridge a schedule leaves. *)
Definition bridge_after {A E' : Type} (tr : list bridge_action)
    (b : bridged A E') : bridged A E' :=
  match brun tr b with
  | Some (Done b') => b'
  | _ => b
  end.

(** * Package [metrics]: the chain of key-value pairs *)

(** [interface{}] as a name of its own, for the packages whose fields are
    called [value]. *)
Definition interface : Type := value.

Module metrics.

(** [Fields]: [map[string]interface{}]. *)
Abbreviation Fields := (gmap string interface).

(** [Pair]: a link of the chain; [prev] is a [*Pair], [None] when nil. *)
#[local] Unset Elimination Schemes.
Inductive Pair : Type :=
| mkPair (prev : option Pair) (key : string) (value : interface).
#[local] Set Elimination Schemes.

Definition prev (p : Pair) : option Pair :=
  match p with mkPair q _ _ => q end.
Definition key (p : Pair) : string :=
  match p with mkPair _ k _ => k end.
Definition value (p : Pair) : interface :=
  match p with mkPair _ _ v => v end.

(** [NewPair]. *)
Definition NewPair (k : string) (v : interface) : option Pair :=
  Some (mkPair None k v).

(** The method [Append]: it does not read its receiver, so it works on a
    nil one. *)
Definition Pair_Append (p : option Pair) (k : string) (val : interface)
  : option Pair :=
  Some (mkPair p k val).

(** The function [Append]. *)
Definition Append (p : option Pair) (k : string) (v : interface)
  : option Pair :=
  Pair_Append p k v.

(** The method [Fields] on a receiver that is not nil: the map is made at
    the root of the chain and every later link writes into it, unless its
    key is empty. *)
Fixpoint fields_of (p : Pair) : Fields :=
  match p with
  | mkPair None k v => <[k:=v]> ∅
  | mkPair (Some q) k v =>
      let f := fields_of q in
      if negb (String.eqb k "") then <[k:=v]> f else f
  end.

(** [Fields]: [p.prev] on a nil receiver is a nil dereference. *)
Definition Pair_Fields (p : option Pair) : outcome Fields :=
  match p with
  | None => Panic "invalid memory address or nil pointer dereference"
  | Some p' => Done (fields_of p')
  end.

(** [Root] on a receiver that is not nil. *)
Fixpoint root_of (p : Pair) : Pair :=
  match p with
  | mkPair None _ _ => p
  | mkPair (Some q) _ _ => root_of q
  end.

(** [Root]. *)
Definition Pair_Root (p : option Pair) : outcome (option Pair) :=
  match p with
  | None => Panic "invalid memory address or nil pointer dereference"
  | Some p' => Done (Some (root_of p'))
  end.

(** [Get] on a receiver that is not nil. *)
Fixpoint get_of (p : Pair) (k : string) : interface * bool :=
  match p with
  | mkPair q k' v =>
      if String.eqb k' k then (v, true)
      else
        match q with
        | None => (VNil, false)
        | Some q' => get_of q' k
        end
  end.

(** [Get]: the nil receiver is tested first. *)
Definition Pair_Get (p : option Pair) (k : string) : interface * bool :=
  match p with
  | None => (VNil, false)
  | Some p' => get_of p' k
  end.

(** [Entry]: the embedded [*Pair] and the message. *)
Record Entry : Type := mkEntry {
  Entry_Pair : option Pair;
  Message : string
}.

(** The methods of [*Pair] that [Entry] gets from the embedding. *)
Definition Entry_Fields (e : Entry) : outcome Fields :=
  Pair_Fields (Entry_Pair e).
Definition Entry_Get (e : Entry) (k : string) : interface * bool :=
  Pair_Get (Entry_Pair e) k.

(** The function [With]. *)
Definition With (k : string) (v : interface) : Entry :=
  {| Entry_Pair := NewPair k v; Message := "" |}.

(** The method [With]. *)
Definition Entry_With (e : Entry) (k : string) (v : interface) : Entry :=
  {| Entry_Pair := Pair_Append (Entry_Pair e) k v; Message := Message e |}.

(** [for k, v := range f { entry.Pair = entry.Pair.Append(k, v) }]: Go
    leaves the order of a [range] over a map open, so the order is an
    argument. *)
Definition append_all (order : list (string * interface)) (e : Entry)
  : Entry :=
  fold_left (fun e' kv => Entry_With e' (fst kv) (snd kv)) order e.

(** The function [WithFields], for the order in which [range] goes through
    the map. *)
Definition WithFields (order : list (string * interface)) : Entry :=
  append_all order {| Entry_Pair := None; Message := "" |}.

(** The method [WithFields]. *)
Definition Entry_WithFields (e : Entry) (order : list (string * interface))
  : Entry :=
  append_all order {| Entry_Pair := Entry_Pair e; Message := Message e |}.

(** [strings.Join]. *)
Fixpoint strings_Join (elems : list string) (sep : string) : string :=
  match elems with
  | [] => ""
  | [x] => x
  | x :: rest => x ++ sep ++ strings_Join rest sep
  end%string.

(** The loop of [Hide]: [mLen] times [mval = append(mval, "*")]. *)
Fixpoint hide_loop (mLen : nat) (mval : list string) : list string :=
  match mLen with
  | O => mval
  | S m => hide_loop m (mval ++ ["*"])
  end.

(** [Hide]. *)
Definition Hide (message : string) : string :=
  strings_Join (hide_loop (String.length message) []) "".

End metrics.

(** * Package [vfiles] *)

Module vfiles.

(** [validExtension]. *)
Fixpoint validExtension (extensions : list string) (ext : string) : bool :=
  match extensions with
  | [] => false
  | es :: rest =>
      if negb (String.eqb es ext) then validExtension rest ext else true
  end.

End vfiles.

(** * Package [context]: the store and the cancellation of a context *)

Module gocontext.

(** [==] on two [interface{}] values. *)
Definition interface_eqb (a b : interface) : bool :=
  match a, b with
  | VNil, VNil => true
  | VInt n, VInt m => n =? m
  | VStr s, VStr t => String.eqb s t
  | _, _ => false
  end.

(** [Pair], with keys that are [interface{}]. *)
#[local] Unset Elimination Schemes.
Inductive Pair : Type :=
| mkPair (prev : option Pair) (key : interface) (value : interface).
#[local] Set Elimination Schemes.

(** The method and the function [Append]. *)
Definition Pair_Append (p : option Pair) (k val : interface) : option Pair :=
  Some (mkPair p k val).
Definition Append (p : option Pair) (k v : interface) : option Pair :=
  Pair_Append p k v.

(** [Get]. *)
Fixpoint get_of (p : Pair) (k : interface) : interface * bool :=
  match p with
  | mkPair q k' v =>
      if interface_eqb k' k then (v, true)
      else
        match q with
        | None => (VNil, false)
        | Some q' => get_of q' k
        end
  end.

Definition Pair_Get (p : option Pair) (k : interface) : interface * bool :=
  match p with
  | None => (VNil, false)
  | Some p' => get_of p' k
  end.

(** [time.Time] as the nanoseconds since the zero time, [time.Duration] as
    nanoseconds. *)
Definition Time : Type := Z.
Definition Duration : Type := Z.

(** [t.IsZero()], [t.Before(u)] and [t.Sub(u)], which saturates. *)
Definition IsZero (t : Time) : bool := t =? 0.
Definition Before (t u : Time) : bool := t <? u.
Definition Sub (t u : Time) : Duration :=
  Z.max int64_min (Z.min int64_max (t - u)).

(** [context] (the parent, which only [SetParent] reads, and the mutex are
    left out).  [timer] is [None] when nil, and otherwise says whether the
    timer is still armed. *)
Record context : Type := mkContext {
  fields : option Pair;
  lifetime : Time;
  timer : option bool;
  duration : Duration;
  canceller : chan;
  canceled : bool
}.

(** [New]. *)
Definition New : context :=
  {| fields := None; lifetime := 0; timer := None; duration := 0;
     canceller := chan_open; canceled := false |}.

(** [TimeRemaining], at the time [now] that [time.Now()] returns. *)
Definition TimeRemaining (now : Time) (c : context) : Duration * bool :=
  if IsZero (lifetime c) then (0, false)
  else if Before now (lifetime c) then (Sub (lifetime c) now, true)
  else (0, true).

(** [IsExpired]. *)
Definition IsExpired (now : Time) (c : context) : bool :=
  let '(rem, has) := TimeRemaining now c in
  if has && (rem <=? 0) then true
  else if canceled c then true
  else false.

(** [Done]: nil for an expired context. *)
Definition context_Done (now : Time) (c : context) : option chan :=
  if IsExpired now c then None else Some (canceller c).

(** [Cancel]. *)
Definition Cancel (now : Time) (c : context) : outcome context :=
  if IsExpired now c then Done c
  else
    match canceller c with
    | chan_closed => Panic "close of closed channel"
    | chan_open =>
        Done {| fields := fields c; lifetime := lifetime c;
                timer := match timer c with
                         | Some _ => Some false
                         | None => None
                         end;
                duration := duration c;
                canceller := chan_closed; canceled := true |}
    end.

(** [Set] and [Get]. *)
Definition Set_ (k v : interface) (c : context) : context :=
  {| fields := Append (fields c) k v; lifetime := lifetime c;
     timer := timer c; duration := duration c; canceller := canceller c;
     canceled := canceled c |}.

Definition Get (c : context) (k : interface) : interface * bool :=
  Pair_Get (fields c) k.

(** A run of calls of [Set], first to last. *)
Definition set_all (ops : list (interface * interface)) (c : context)
  : context :=
  fold_left (fun c' kv => Set_ (fst kv) (snd kv) c') ops c.

(** The last pair of [ops] whose key is [k]. *)
Fixpoint last_set (ops : list (interface * interface)) (k : interface)
  : option interface :=
  match ops with
  | [] => None
  | (k', v) :: ops' =>
      match last_set ops' k with
      | Some v' => Some v'
      | None => if interface_eqb k' k then Some v else None
      end
  end.

End gocontext.

(** ** Example chains and contexts *)

Definition two_pairs : option metrics.Pair :=
  metrics.Pair_Append (metrics.NewPair "a" (VInt 1)) "b" (VInt 2).

(** A context with a deadline at time 100. *)
Definition with_deadline : gocontext.context :=
  {| gocontext.fields := None; gocontext.lifetime := 100;
     gocontext.timer := Some true; gocontext.duration := 50;
     gocontext.canceller := chan_open; gocontext.canceled := false |}.

(** ** Arithmetic of the counters *)

Lemma wrap64_small (z : Z) : in_int64 z -> wrap64 z = z.
Proof.
  unfold in_int64, int64_min, int64_max, wrap64. intros Hz.
  rewrite Z.mod_small; lia.
Qed.

Lemma wrap64_add_l (a b : Z) : wrap64 (wrap64 a + b) = wrap64 (a + b).
Proof.
  unfold wrap64.
  replace ((a + 2 ^ 63) mod 2 ^ 64 - 2 ^ 63 + b + 2 ^ 63)
    with ((a + 2 ^ 63) mod 2 ^ 64 + b) by lia.
  rewrite Zplus_mod_idemp_l. f_equal. f_equal. lia.
Qed.

Lemma wrap64_0 : wrap64 0 = 0.
Proof. reflexivity. Qed.

Lemma wrap64_range (z : Z) : in_int64 (wrap64 z).
Proof.
  unfold in_int64, int64_min, int64_max, wrap64.
  pose proof (Z.mod_pos_bound (z + 2 ^ 63) (2 ^ 64)). lia.
Qed.

(** ** The executable pieces, characterised *)

Section Properties.

Context {E : Type}.
Implicit Types (w : world E) (s : stream E) (tr : list action).

(** Unfolding the statements of a method down to the world they produce. *)
Ltac unfold_go :=
  unfold Data, Data_sent, Error, Error_sent, Shutdown, Shutdown_joined,
    Stream, worker_enter, worker_leave, set_goroutine, take_sender,
    wg_Done, wg_Add, wg_Wait, close_data, close_nc, send, StoreInt64,
    AddInt64, LoadInt64, log_Log, log_Error, update, bind, ret in *.

Lemma for_range_go (f : StreamRef -> gocall) (subs : list StreamRef) w :
  for_range subs (fun sm => go (f sm)) w
  = Ok tt (with_spawned (spawned w ++ map f subs) w).
Proof.
  revert w. induction subs as [| sm subs IH]; intros w; simpl.
  - unfold ret. destruct w; unfold with_spawned; simpl.
    by rewrite app_nil_r.
  - unfold bind, go at 1. rewrite IH. destruct w; unfold with_spawned; simpl.
    by rewrite <- app_assoc.
Qed.

(** The loop body on a unit the Processor returns from. *)
Lemma worker_body_Done w load pr res er e' :
  proc (st w) = Some pr ->
  Proc_Do pr (ctx load) (err load) (d load) (Proc_env pr)
    = (Done (res, er), e') ->
  worker_body load w
  = Ok tt
      (mkWorld
         (with_processed (wrap64 (processed (st w) + 1))
            (with_proc (Some (mkProc e' (Proc_Do pr))) (st w)))
         (logged w ++
            [LogLog "sumex.Stream" "worker"
               "Info : Res : { Response: %+s, Error: %+s}"
               [AValue res; AError er]])
         (pool w) (senders w) (waiting w)
         (spawned w ++ fanout load res er (pubs (st w)))).
Proof.
  intros Hp Hdo. unfold worker_body, Defer, bind, proc_Do.
  rewrite Hp, Hdo. simpl. unfold fanout.
  destruct er as [m |]; rewrite for_range_go; reflexivity.
Qed.

(** The loop body on a unit the Processor panics on. *)
Lemma worker_body_Panic w load pr msg e' :
  proc (st w) = Some pr ->
  Proc_Do pr (ctx load) (err load) (d load) (Proc_env pr)
    = (Panic msg, e') ->
  worker_body load w
  = Ok tt
      (mkWorld (with_proc (Some (mkProc e' (Proc_Do pr))) (st w))
         (logged w ++ [panic_logcall msg])
         (pool w) (senders w) (waiting w) (spawned w)).
Proof.
  intros Hp Hdo. unfold worker_body, Defer, bind, proc_Do.
  rewrite Hp, Hdo. reflexivity.
Qed.

(** The loop body of a stage that was given no Processor. *)
Lemma worker_body_nil w load :
  proc (st w) = None ->
  worker_body load w
  = Ok tt
      (with_logged
         (logged w ++
            [panic_logcall
               "invalid memory address or nil pointer dereference"]) w).
Proof.
  intros Hp. unfold worker_body, Defer, bind, proc_Do.
  rewrite Hp. reflexivity.
Qed.

(** Whatever the Processor does, the loop body returns, and it leaves the
    channels, the flags, the blocked callers and the pool as they were. *)
Lemma worker_body_frame w load :
  exists w',
    worker_body load w = Ok tt w' /\
    pool w' = pool w /\ senders w' = senders w /\ waiting w' = waiting w /\
    closed (st w') = closed (st w) /\ pending (st w') = pending (st w) /\
    data (st w') = data (st w) /\ nc (st w') = nc (st w) /\
    wg (st w') = wg (st w) /\ pubs (st w') = pubs (st w) /\
    workers (st w') = workers (st w).
Proof.
  destruct (proc (st w)) as [pr |] eqn:Hp.
  - destruct (Proc_Do pr (ctx load) (err load) (d load) (Proc_env pr))
      as [[[res er] | msg] e'] eqn:Hdo.
    + eexists. split; [by eapply worker_body_Done |]. simpl. tauto.
    + eexists. split; [by eapply worker_body_Panic |]. simpl. tauto.
  - eexists. split; [by apply worker_body_nil |]. simpl. tauto.
Qed.


(** The loop of [worker] gets through every payload it is handed: no fault
    of the Processor leaves the loop. *)
Lemma worker_loop_returns w loads :
  exists w', for_range loads worker_body w = Ok tt w'.
Proof.
  revert w. induction loads as [| load loads IH]; intros w; simpl.
  - by exists w.
  - unfold bind. destruct (worker_body_frame w load) as (w1 & -> & _).
    apply IH.
Qed.

(** ** The invariant holds in every world a schedule reaches *)

Lemma New_inv l u n pr : inv (New (E:=E) l u n pr).
Proof. split; simpl; done. Qed.

Lemma run_app tr1 tr2 w w' :
  run (tr1 ++ tr2) w = Some (Ok tt w') <->
  exists w1, run tr1 w = Some (Ok tt w1) /\ run tr2 w1 = Some (Ok tt w').
Proof.
  revert w. induction tr1 as [| a tr1 IH]; intros w; simpl.
  - split.
    + intros H. by exists w.
    + intros (w1 & H1 & H2). by simplify_eq.
  - destruct (step a w) as [[[] w1 | msg w1] |]; [apply IH | |].
    + split; [done |]. intros (? & ? & ?). done.
    + split; [done |]. intros (? & ? & ?). done.
Qed.

Lemma run_snoc tr a w w' :
  run (tr ++ [a]) w = Some (Ok tt w') <->
  exists w1, run tr w = Some (Ok tt w1) /\ step a w1 = Some (Ok tt w').
Proof.
  rewrite run_app. split; intros (w1 & H1 & H2); exists w1; split; try done.
  - simpl in H2. destruct (step a w1) as [[[] w2 | msg w2] |]; by simplify_eq.
  - simpl. by rewrite H2.
Qed.

Lemma wrap64_succ_pred (n : nat) :
  wrap64 (wrap64 (Z.of_nat (S n)) + -1) = wrap64 (Z.of_nat n).
Proof. rewrite wrap64_add_l. f_equal. lia. Qed.

Lemma wrap64_succ (n : nat) :
  wrap64 (wrap64 (Z.of_nat n) + 1) = wrap64 (Z.of_nat (S n)).
Proof. rewrite wrap64_add_l. f_equal. lia. Qed.

Lemma step_inv a w w' : inv w -> step a w = Some (Ok tt w') -> inv w'.
Proof.
  intros Hinv Hstep. pose proof Hinv as [Hpend Hopen Hclosed Hwait].
  destruct a as [c v | c e | | sm | j | i j | j | j |]; simpl in Hstep.
  - (* Data *)
    unfold_go. simpl in *.
    destruct (0 <? closed (st w)) eqn:Hcl; [by simplify_eq |].
    destruct (data (st w)) eqn:Hd; simplify_eq.
    split; simpl; try done.
    + rewrite length_app, Hpend. simpl.
      replace (length (senders w) + 1)%nat with (S (length (senders w)))
        by lia.
      apply wrap64_succ.
    + intros _. auto.
    + intros Hd'. congruence.
  - (* Error *)
    unfold_go. simpl in *.
    destruct (closed (st w) =? 0) eqn:Hcl; simpl in *; [| by simplify_eq].
    destruct (data (st w)) eqn:Hd; simplify_eq.
    split; simpl; try done.
    + rewrite length_app, Hpend. simpl.
      replace (length (senders w) + 1)%nat with (S (length (senders w)))
        by lia.
      apply wrap64_succ.
    + intros _. auto.
    + intros Hd'. congruence.
  - (* Shutdown *)
    unfold_go. simpl in *.
    destruct (0 <? closed (st w)) eqn:Hcl; simpl in *.
    { simplify_eq. split; simpl; solve [done | auto | intros; congruence]. }
    destruct (data (st w)) eqn:Hd; simpl in *; [| done].
    destruct (senders w) eqn:Hs; simpl in *; [| done].
    simplify_eq. destruct (Hopen eq_refl) as (_ & Hnc & _).
    split; simpl; try done.
    rewrite Hpend, Hs. reflexivity.
  - (* Stream *)
    unfold_go. simpl in *. simplify_eq. split; simpl; solve [done | auto | intros; congruence].
  - (* WorkerStart *)
    destruct (pool w !! j) as [[] |]; try done.
    unfold_go. simpl in *.
    destruct (wg (st w) + 1 <? 0); simpl in *; simplify_eq.
    split; simpl; solve [done | auto | intros; congruence].
  - (* Handoff *)
    destruct (senders w !! i) as [[k load] |] eqn:Hi; [| done].
    destruct (pool w !! j) as [[] |]; try done.
    destruct (data (st w)) eqn:Hd; [| done].
    assert (Hlen : S (length (delete i (senders w))) = length (senders w)).
    { pose proof (lookup_lt_Some _ _ _ Hi). rewrite length_delete; [lia | eauto]. }
    destruct k; unfold_go; simpl in *; simplify_eq;
      (split; simpl; [| auto | intros; congruence | done]);
      rewrite Hpend, <- Hlen; apply wrap64_succ_pred.
  - (* WorkerRun *)
    destruct (pool w !! j) as [[] |]; try done.
    destruct (worker_body_frame w load)
      as (w1 & Hw1 & ? & Hs & Hwt & Hc & Hp & Hd & Hn & _).
    unfold bind in Hstep. rewrite Hw1 in Hstep.
    unfold set_goroutine in Hstep. simplify_eq.
    split; simpl; rewrite ?Hs, ?Hwt, ?Hc, ?Hp, ?Hd, ?Hn; done.
  - (* WorkerExit *)
    destruct (pool w !! j) as [[] |]; try done.
    destruct (data (st w)) eqn:Hd; [done |].
    unfold_go. simpl in *.
    destruct (wg (st w) + -1 <? 0); simpl in *; simplify_eq.
    split; simpl; solve [done | auto | intros; congruence].
  - (* ShutdownReturn *)
    destruct (waiting w) eqn:Hw; simpl in Hstep; [| done].
    destruct (wg (st w) =? 0); [| done].
    unfold_go. simpl in *. rewrite (Hwait eq_refl) in Hstep. simpl in *.
    simplify_eq. split; simpl; try done.
    intros Hd. destruct (Hopen Hd) as (_ & _ & ?). done.
Qed.

Lemma run_inv tr w w' : inv w -> run tr w = Some (Ok tt w') -> inv w'.
Proof.
  revert w. induction tr as [| a tr IH]; intros w Hinv Hrun; simpl in Hrun.
  - by simplify_eq.
  - destruct (step a w) as [[[] w1 | msg w1] |] eqn:Hstep; try done.
    eapply IH; [| done]. by eapply step_inv.
Qed.


(** ** After [Shutdown] has returned *)

(** Only the return of [Shutdown] touches the notification channel. *)
Lemma step_nc a w w' :
  step a w = Some (Ok tt w') -> a <> ShutdownReturn -> nc (st w') = nc (st w).
Proof.
  intros Hstep Hne.
  destruct a as [c v | c e | | sm | j | i j | j | j |]; simpl in Hstep;
    [| | | | | | | | done].
  - unfold_go. simpl in *.
    destruct (0 <? closed (st w)); [by simplify_eq |].
    destruct (data (st w)); by simplify_eq.
  - unfold_go. simpl in *.
    destruct (closed (st w) =? 0); simpl in *; [| by simplify_eq].
    destruct (data (st w)); by simplify_eq.
  - unfold_go. simpl in *.
    destruct (0 <? closed (st w)); simpl in *; [by simplify_eq |].
    destruct (data (st w)); simpl in *; [| done].
    destruct (senders w); by simplify_eq.
  - unfold_go. simpl in *. by simplify_eq.
  - destruct (pool w !! j) as [[] |]; try done.
    unfold_go. simpl in *.
    destruct (wg (st w) + 1 <? 0); by simplify_eq.
  - destruct (senders w !! i) as [[k load] |]; [| done].
    destruct (pool w !! j) as [[] |]; try done.
    destruct (data (st w)); [| done].
    destruct k; unfold_go; simpl in *; by simplify_eq.
  - destruct (pool w !! j) as [[] |]; try done.
    destruct (worker_body_frame w load)
      as (w1 & Hw1 & _ & _ & _ & _ & _ & _ & Hn & _).
    unfold bind in Hstep. rewrite Hw1 in Hstep.
    unfold set_goroutine in Hstep. by simplify_eq.
  - destruct (pool w !! j) as [[] |]; try done.
    destruct (data (st w)); [done |].
    unfold_go. simpl in *.
    destruct (wg (st w) + -1 <? 0); by simplify_eq.
Qed.

(** The return of [Shutdown] closes the notification channel, and it can
    only happen while that channel is open. *)
Lemma step_ShutdownReturn w w' :
  inv w -> step ShutdownReturn w = Some (Ok tt w') ->
  nc (st w) = chan_open /\ nc (st w') = chan_closed.
Proof.
  intros Hinv Hstep. simpl in Hstep.
  destruct (waiting w) eqn:Hw; simpl in Hstep; [| done].
  destruct (wg (st w) =? 0); [| done].
  pose proof (inv_waiting w Hinv Hw) as Hn.
  unfold_go. simpl in *. rewrite Hn in Hstep. by simplify_eq.
Qed.

(** Once the notification channel is closed, [Shutdown] never returns a
    second time and the channel stays closed. *)
Lemma run_after_notify tr w w' :
  inv w -> nc (st w) = chan_closed -> run tr w = Some (Ok tt w') ->
  notifications tr = 0%nat /\ nc (st w') = chan_closed.
Proof.
  revert w. induction tr as [| a tr IH]; intros w Hinv Hn Hrun;
    simpl in Hrun.
  - by simplify_eq.
  - destruct (step a w) as [[[] w1 | msg w1] |] eqn:Hstep; try done.
    assert (Hne : a <> ShutdownReturn).
    { intros ->. destruct (step_ShutdownReturn w w1 Hinv Hstep). congruence. }
    destruct (IH w1) as [Hcount Hn']; [by eapply step_inv | | done |].
    + rewrite (step_nc a w w1 Hstep Hne). done.
    + split; [| done]. destruct a; simpl; done.
Qed.

(** In a schedule from a fresh invariant state [Shutdown] returns at most
    once; if it does, the notification channel is closed from then on. *)
Lemma run_notifications tr w w' :
  inv w -> run tr w = Some (Ok tt w') ->
  (notifications tr <= 1)%nat /\
  (In ShutdownReturn tr -> notifications tr = 1%nat /\
                           nc (st w') = chan_closed).
Proof.
  revert w. induction tr as [| a tr IH]; intros w Hinv Hrun; simpl in Hrun.
  - simpl. split; [lia | tauto].
  - destruct (step a w) as [[[] w1 | msg w1] |] eqn:Hstep; try done.
    pose proof (step_inv a w w1 Hinv Hstep) as Hinv1.
    destruct (IH w1 Hinv1 Hrun) as [Hle Hin].
    assert (Hcases : a = ShutdownReturn \/ a <> ShutdownReturn)
      by (destruct a; auto; right; done).
    destruct Hcases as [-> | Hne].
    + destruct (step_ShutdownReturn w w1 Hinv Hstep) as [_ Hn1].
      destruct (run_after_notify tr w1 w' Hinv1 Hn1 Hrun) as [H0 Hn'].
      simpl. rewrite H0. split; [lia | done].
    + assert (Hsame : notifications (a :: tr) = notifications tr)
        by (destruct a; done).
      rewrite Hsame. split; [done |].
      intros [-> | Hin']; [done | auto].
Qed.

(** What [Shutdown] having returned means for the state. *)
Lemma after_Shutdown_state w :
  inv w -> nc (st w) = chan_closed ->
  closed (st w) = 1 /\ data (st w) = chan_closed /\ senders w = [] /\
  waiting w = false /\ pending (st w) = 0.
Proof.
  intros Hinv Hn. pose proof Hinv as [Hpend Hopen Hclosed Hwait].
  assert (Hd : data (st w) = chan_closed).
  { destruct (data (st w)); [| done].
    destruct (Hopen eq_refl) as (_ & ? & _). congruence. }
  destruct (Hclosed Hd) as [Hc Hs].
  repeat split; try done.
  - destruct (waiting w); [| done]. specialize (Hwait eq_refl). congruence.
  - rewrite Hpend, Hs. reflexivity.
Qed.


(** ** Single steps of a worker *)

(** A worker that holds a unit always completes its step, whatever the
    Processor does with the unit, and is back at the receive of its loop. *)
Lemma step_WorkerRun w j load pr :
  pool w !! j = Some (W_busy load) ->
  proc (st w) = Some pr ->
  exists w',
    step (WorkerRun j) w = Some (Ok tt w') /\
    worker_body load w = Ok tt (with_pool (pool w) w') /\
    pool w' = <[j:=W_recv]> (pool w) /\
    proc (st w')
    = Some (mkProc
              (snd (Proc_Do pr (ctx load) (err load) (d load) (Proc_env pr)))
              (Proc_Do pr)) /\
    data (st w') = data (st w) /\ closed (st w') = closed (st w) /\
    senders w' = senders w.
Proof.
  intros Hj Hp. simpl. rewrite Hj. unfold bind.
  destruct (Proc_Do pr (ctx load) (err load) (d load) (Proc_env pr))
    as [[[res er] | msg] e'] eqn:Hdo.
  - erewrite worker_body_Done; [| exact Hp | exact Hdo].
    eexists. split; [reflexivity |]. simpl. done.
  - erewrite worker_body_Panic; [| exact Hp | exact Hdo].
    eexists. split; [reflexivity |]. simpl. done.
Qed.

(** The rendezvous of a blocked sender with a worker waiting to receive. *)
Lemma step_Handoff w i j knd load :
  senders w !! i = Some (knd, load) ->
  pool w !! j = Some W_recv ->
  data (st w) = chan_open ->
  exists w',
    step (Handoff i j) w = Some (Ok tt w') /\
    pool w' = <[j:=W_busy load]> (pool w) /\
    senders w' = delete i (senders w) /\
    proc (st w') = proc (st w) /\
    pending (st w') = wrap64 (pending (st w) + -1).
Proof.
  intros Hi Hj Hd. simpl. rewrite Hi, Hj, Hd.
  destruct knd; unfold_go; simpl; eexists; (split; [reflexivity |]); done.
Qed.

(** ** The contract of the stage *)

(** C2: a Processor fault on the unit a worker holds ends neither the worker
    nor the stage.  The worker's step returns, the worker is back at the
    receive of its loop with the intake channel and the closed flag as they
    were, the next blocked sender hands its payload to this very worker, and
    the worker runs the Processor on it. *)
Theorem worker_survives_fault w j k i knd k1 pr msg e' :
  proc (st w) = Some pr ->
  pool w !! j = Some (W_busy k) ->
  Proc_Do pr (ctx k) (err k) (d k) (Proc_env pr) = (Panic msg, e') ->
  senders w !! i = Some (knd, k1) ->
  data (st w) = chan_open ->
  exists w1 w2 w3,
    step (WorkerRun j) w = Some (Ok tt w1) /\
    pool w1 !! j = Some W_recv /\
    data (st w1) = chan_open /\ closed (st w1) = closed (st w) /\
    step (Handoff i j) w1 = Some (Ok tt w2) /\
    pool w2 !! j = Some (W_busy k1) /\
    step (WorkerRun j) w2 = Some (Ok tt w3) /\
    pool w3 !! j = Some W_recv /\
    proc (st w3)
    = Some (mkProc (snd (Proc_Do pr (ctx k1) (err k1) (d k1) e'))
              (Proc_Do pr)).
Proof.
  intros Hp Hj Hdo Hi Hd.
  pose proof (lookup_lt_Some _ _ _ Hj) as Hlt.
  destruct (step_WorkerRun w j k pr Hj Hp)
    as (w1 & Hs1 & _ & Hpool1 & Hp1 & Hd1 & Hc1 & Hsn1).
  rewrite Hdo in Hp1. simpl in Hp1.
  assert (Hj1 : pool w1 !! j = Some W_recv).
  { rewrite Hpool1. by apply list_lookup_insert_eq. }
  destruct (step_Handoff w1 i j knd k1)
    as (w2 & Hs2 & Hpool2 & _ & Hp2 & _); [congruence | done | congruence |].
  assert (Hj2 : pool w2 !! j = Some (W_busy k1)).
  { rewrite Hpool2. apply list_lookup_insert_eq.
    rewrite Hpool1, length_insert. done. }
  destruct (step_WorkerRun w2 j k1 (mkProc e' (Proc_Do pr)) Hj2)
    as (w3 & Hs3 & _ & Hpool3 & Hp3 & _); [congruence |].
  exists w1, w2, w3. repeat split; try done; try congruence.
  rewrite Hpool3. apply list_lookup_insert_eq.
  rewrite Hpool2, length_insert, Hpool1, length_insert. done.
Qed.


(** C4: for a unit the Processor returns from, the worker starts exactly one
    kind of call, one per subscriber: [Data] with the result when the
    returned error is nil, [Error] with the returned error (and without the
    result) when it is not; no unit starts calls of both kinds. *)
Theorem fanout_Data_xor_Error w j load pr res er e' :
  proc (st w) = Some pr ->
  pool w !! j = Some (W_busy load) ->
  Proc_Do pr (ctx load) (err load) (d load) (Proc_env pr)
    = (Done (res, er), e') ->
  exists w' calls,
    step (WorkerRun j) w = Some (Ok tt w') /\
    spawned w' = spawned w ++ calls /\
    (er = None ->
     calls = map (fun sm => go_Data sm (ctx load) res) (pubs (st w))) /\
    (er <> None ->
     calls = map (fun sm => go_Error sm (ctx load) er) (pubs (st w))) /\
    ~ ((exists sm c v, In (go_Data sm c v) calls) /\
       (exists sm c e, In (go_Error sm c e) calls)).
Proof.
  intros Hp Hj Hdo.
  exists (mkWorld
            (with_processed (wrap64 (processed (st w) + 1))
               (with_proc (Some (mkProc e' (Proc_Do pr))) (st w)))
            (logged w ++
               [LogLog "sumex.Stream" "worker"
                  "Info : Res : { Response: %+s, Error: %+s}"
                  [AValue res; AError er]])
            (<[j:=W_recv]> (pool w)) (senders w) (waiting w)
            (spawned w ++ fanout load res er (pubs (st w)))),
    (fanout load res er (pubs (st w))).
  split.
  { simpl. rewrite Hj. unfold bind.
    erewrite worker_body_Done; [| exact Hp | exact Hdo]. reflexivity. }
  split; [done |]. unfold fanout.
  destruct er as [m |]; (split; [done |]); (split; [done |]).
  - intros [(sm & c & v & Hin) _].
    apply in_map_iff in Hin as (x & Hx & _). discriminate.
  - intros [_ (sm & c & e & Hin)].
    apply in_map_iff in Hin as (x & Hx & _). discriminate.
Qed.

(** C8, as the code has it: when the Processor returns, with or without an
    error, the processed counter that [Stats] reports as [Completed] goes up
    by exactly one; when the Processor panics the counter keeps its value. *)
Theorem Completed_counts_returns w j load pr r e' :
  proc (st w) = Some pr ->
  pool w !! j = Some (W_busy load) ->
  Proc_Do pr (ctx load) (err load) (d load) (Proc_env pr) = (r, e') ->
  int64_min <= processed (st w) < int64_max ->
  exists w',
    step (WorkerRun j) w = Some (Ok tt w') /\
    match r with
    | Done _ => Completed (Stats (st w')) = Completed (Stats (st w)) + 1
    | Panic _ => Completed (Stats (st w')) = Completed (Stats (st w))
    end.
Proof.
  intros Hp Hj Hdo Hrange. simpl. rewrite Hj. unfold bind.
  destruct r as [[res er] | msg].
  - erewrite worker_body_Done; [| exact Hp | exact Hdo].
    eexists. split; [reflexivity |]. simpl.
    apply wrap64_small. unfold in_int64. lia.
  - erewrite worker_body_Panic; [| exact Hp | exact Hdo].
    eexists. split; [reflexivity |]. done.
Qed.

(** C9: right after construction with [N >= 1] workers, [Stats] reports
    [N + 1] as [TotalWorkers] ([N + 1] has to be an [int]). *)
Theorem New_TotalWorkers l u N pr :
  1 <= N < int64_max ->
  TotalWorkers (Stats (st (New (E:=E) l u N pr))) = N + 1 /\
  length (pool (New (E:=E) l u N pr)) = Z.to_nat N.
Proof.
  intros HN. unfold New. simpl.
  destruct (N <=? 0) eqn:Hle; [lia |]. simpl. split.
  - apply wrap64_small. unfold in_int64, int64_min, int64_max in *. lia.
  - apply length_replicate.
Qed.

(** C7: in every schedule of a fresh stage that ends with [Shutdown]
    returning, whatever calls of [Data] and [Error] came before and however
    they interleaved with the workers, [Stats] reports [Pending] as zero. *)
Theorem Pending_zero_after_Shutdown l u n pr tr w :
  run (tr ++ [ShutdownReturn]) (New l u n pr) = Some (Ok tt w) ->
  Pending (Stats (st w)) = 0 /\ senders w = [].
Proof.
  intros Hrun.
  pose proof (run_inv _ _ _ (New_inv l u n pr) Hrun) as Hinv.
  destruct (run_notifications _ _ _ (New_inv l u n pr) Hrun) as [_ Hn].
  destruct Hn as [_ Hn]; [apply in_app_iff; right; by left |].
  destruct (after_Shutdown_state w Hinv Hn) as (_ & _ & Hs & _ & Hp).
  done.
Qed.

(** C5: once [Shutdown] has returned, a second call returns at once and
    without a fault: it leaves the stage, both of its channels and every
    goroutine as they were and only hands two calls to the logger; nobody
    is left waiting, so [close(s.nc)] cannot run again, and over the whole
    schedule the notification has fired exactly once. *)
Theorem Shutdown_twice l u n pr tr w :
  run tr (New l u n pr) = Some (Ok tt w) ->
  In ShutdownReturn tr ->
  exists w',
    step CallShutdown w = Some (Ok tt w') /\
    st w' = st w /\ pool w' = pool w /\ senders w' = senders w /\
    waiting w' = waiting w /\ spawned w' = spawned w /\
    logged w'
    = logged w ++
      [LogLog "Sumex.Stream" "Shutdown" "Started : Shutdown Requested" [];
       LogLog "Sumex.Stream" "Stats"
         "Completed : Shutdown Request : Previously Done" []] /\
    data (st w') = chan_closed /\ CloseNotify (st w') = chan_closed /\
    step ShutdownReturn w' = None /\
    notifications (tr ++ [CallShutdown]) = 1%nat.
Proof.
  intros Hrun Hin.
  pose proof (run_inv _ _ _ (New_inv l u n pr) Hrun) as Hinv.
  destruct (run_notifications _ _ _ (New_inv l u n pr) Hrun) as [_ Hn].
  destruct (Hn Hin) as [Hone Hnc].
  destruct (after_Shutdown_state w Hinv Hnc) as (Hc & Hd & Hs & Hw & Hp).
  eexists. split.
  { simpl. unfold_go. simpl. rewrite Hc. simpl. reflexivity. }
  simpl. rewrite Hw. simpl. repeat split; try done.
  - by rewrite <- app_assoc.
  - clear -Hone. induction tr as [| a tr IH]; simpl in *; [done |].
    destruct a; simpl in *; auto.
    injection Hone as Hone. f_equal.
    clear IH. induction tr as [| a tr IH]; simpl in *; [done |].
    destruct a; simpl in *; auto. done.
Qed.

(** C6: once [Shutdown] has returned, a call of [Data] or of [Error]
    returns without a fault and leaves the world exactly as it was: nothing
    is logged, no sender is parked on the intake channel, and [Pending]
    stays at zero. *)
Theorem Data_Error_after_Shutdown l u n pr tr w c v e :
  run tr (New l u n pr) = Some (Ok tt w) ->
  In ShutdownReturn tr ->
  step (CallData c v) w = Some (Ok tt w) /\
  step (CallError c e) w = Some (Ok tt w) /\
  senders w = [] /\
  Pending (Stats (st w)) = 0.
Proof.
  intros Hrun Hin.
  pose proof (run_inv _ _ _ (New_inv l u n pr) Hrun) as Hinv.
  destruct (run_notifications _ _ _ (New_inv l u n pr) Hrun) as [_ Hn].
  destruct (Hn Hin) as [_ Hnc].
  destruct (after_Shutdown_state w Hinv Hnc) as (Hc & _ & Hs & _ & Hp).
  repeat split; try done.
  - simpl. unfold_go. simpl. rewrite Hc. reflexivity.
  - simpl. unfold_go. simpl. rewrite Hc. reflexivity.
Qed.


(** Only a worker running the loop body touches the Processor, and what it
    leaves is the Processor after one call of [Do]. *)
Lemma step_proc a w w' :
  step a w = Some (Ok tt w') ->
  proc (st w') = proc (st w) \/
  exists load pr,
    proc (st w) = Some pr /\
    proc (st w')
    = Some (mkProc
              (snd (Proc_Do pr (ctx load) (err load) (d load) (Proc_env pr)))
              (Proc_Do pr)).
Proof.
  intros Hstep.
  destruct a as [c v | c e | | sm | j | i j | j | j |]; simpl in Hstep.
  - left. unfold_go. simpl in *.
    destruct (0 <? closed (st w)); [by simplify_eq |].
    destruct (data (st w)); by simplify_eq.
  - left. unfold_go. simpl in *.
    destruct (closed (st w) =? 0); simpl in *; [| by simplify_eq].
    destruct (data (st w)); by simplify_eq.
  - left. unfold_go. simpl in *.
    destruct (0 <? closed (st w)); simpl in *; [by simplify_eq |].
    destruct (data (st w)); simpl in *; [| done].
    destruct (senders w); by simplify_eq.
  - left. unfold_go. simpl in *. by simplify_eq.
  - left. destruct (pool w !! j) as [[] |]; try done.
    unfold_go. simpl in *.
    destruct (wg (st w) + 1 <? 0); by simplify_eq.
  - left. destruct (senders w !! i) as [[k load] |]; [| done].
    destruct (pool w !! j) as [[] |]; try done.
    destruct (data (st w)); [| done].
    destruct k; unfold_go; simpl in *; by simplify_eq.
  - destruct (pool w !! j) as [[| | load |] |] eqn:Hj; try done.
    destruct (proc (st w)) as [pr |] eqn:Hp.
    + right. exists load, pr. split; [done |].
      destruct (step_WorkerRun w j load pr Hj Hp) as (w1 & Hs & _ & _ & H & _).
      simpl in Hs. rewrite Hj in Hs. congruence.
    + left. unfold bind in Hstep. rewrite (worker_body_nil w load Hp) in Hstep.
      unfold set_goroutine in Hstep. simplify_eq. simpl. done.
  - left. destruct (pool w !! j) as [[] |]; try done.
    destruct (data (st w)); [done |].
    unfold_go. simpl in *.
    destruct (wg (st w) + -1 <? 0); by simplify_eq.
  - left. destruct (waiting w); simpl in Hstep; [| done].
    destruct (wg (st w) =? 0); [| done].
    unfold_go. simpl in *.
    destruct (nc (st w)); by simplify_eq.
Qed.

End Properties.

(** ** The bridge of [ReceiveError] *)

(** One call of the function [ReceiveError] hands to [Do] adds no nil to
    what its channel has carried. *)
Lemma ReceiveError_handler_keeps c e v (mc : bchan error) :
  Forall (fun x => x <> None) (carried mc) ->
  Forall (fun x => x <> None)
    (carried (snd (code ReceiveError_handler c e v mc))).
Proof.
  intros Hall. simpl. destruct e as [m |]; [| done].
  unfold bsend. destruct (bstate mc); simpl; [| done].
  apply Forall_app. split; [done |]. by constructor.
Qed.

(** What every step of the bridge stage keeps true: the Processor is still
    that function, and its channel has carried no nil. *)
Lemma bridge_step_keeps a (w w' : world (bchan error)) mc :
  proc (st w)
  = Some (mkProc mc (doworker_Do (mkDoworker ReceiveError_handler))) ->
  Forall (fun x => x <> None) (carried mc) ->
  step a w = Some (Ok tt w') ->
  exists mc',
    proc (st w')
    = Some (mkProc mc' (doworker_Do (mkDoworker ReceiveError_handler))) /\
    Forall (fun x => x <> None) (carried mc').
Proof.
  intros Hp Hall Hstep.
  destruct (step_proc a w w' Hstep) as [Hsame | (load & pr & Hpr & Hp1)].
  - exists mc. split; [congruence | done].
  - rewrite Hp in Hpr. simplify_eq. simpl in Hp1.
    eexists. split; [exact Hp1 |].
    apply (ReceiveError_handler_keeps (ctx load) (err load) (d load) mc Hall).
Qed.

(** The same for every step of the bridge, the statements of the closing
    goroutine among them: [ms.Shutdown()] leaves the Processor alone and
    [close(mc)] sends nothing. *)
Lemma bstep_keeps {E' : Type} x (b b' : bridged error E') mc :
  proc (st (bridged_ms b))
  = Some (mkProc mc (doworker_Do (mkDoworker ReceiveError_handler))) ->
  Forall (fun x => x <> None) (carried mc) ->
  bstep x b = Some (Done b') ->
  exists mc',
    proc (st (bridged_ms b'))
    = Some (mkProc mc' (doworker_Do (mkDoworker ReceiveError_handler))) /\
    Forall (fun x => x <> None) (carried mc').
Proof.
  intros Hp Hall Hstep. destruct x as [a | a |]; simpl in Hstep.
  - destruct (bridged_up b) as [up |]; [| done].
    destruct (step a up) as [[[] up' | msg up'] |]; simplify_eq.
    by exists mc.
  - destruct (step a (bridged_ms b)) as [[[] ms' | msg ms'] |] eqn:Hs;
      simplify_eq.
    simpl. by apply (bridge_step_keeps a (bridged_ms b) ms' mc).
  - unfold closer_step in Hstep. destruct (bridged_closer b).
    + destruct (bridged_up b) as [up |]; [| done].
      destruct (CloseNotify (st up)); simplify_eq. by exists mc.
    + destruct (Shutdown (bridged_ms b)) as [[] ms' | msg ms'] eqn:Hs;
        simplify_eq.
      simpl. apply (bridge_step_keeps CallShutdown (bridged_ms b) ms' mc);
        [done | done |].
      simpl. by rewrite Hs.
    + destruct (waiting (bridged_ms b)); simplify_eq. by exists mc.
    + unfold close_mc in Hstep. rewrite Hp in Hstep. simpl in Hstep.
      destruct (bstate mc); simplify_eq. simpl. eexists. split; [done |].
      done.
    + done.
Qed.

(** And so for every schedule of the bridge. *)
Lemma brun_keeps {E' : Type} tr (b b' : bridged error E') mc :
  proc (st (bridged_ms b))
  = Some (mkProc mc (doworker_Do (mkDoworker ReceiveError_handler))) ->
  Forall (fun x => x <> None) (carried mc) ->
  brun tr b = Some (Done b') ->
  exists mc',
    bridge_chan (bridged_ms b') = Some mc' /\
    Forall (fun x => x <> None) (carried mc').
Proof.
  revert b mc. induction tr as [| x tr IH]; intros b mc Hp Hall Hrun;
    simpl in Hrun.
  - simplify_eq. exists mc. unfold bridge_chan. by rewrite Hp.
  - destruct (bstep x b) as [[b1 | msg] |] eqn:Hstep; try done.
    destruct (bstep_keeps x b b1 mc Hp Hall Hstep) as (mc1 & Hp1 & Hall1).
    by apply (IH b1 mc1).
Qed.

(** On a nil stream [ReceiveError] still returns its channel and its stage,
    but the first statement of the goroutine it has started ends the
    program; until then the goroutine has not moved, so that the channel is
    never closed. *)
Lemma ReceiveError_nil_upstream u b0 :
  ReceiveError (E':=unit) None u = Done b0 ->
  bstep CloserStep b0
  = Some (Panic "invalid memory address or nil pointer dereference") /\
  forall tr b,
    brun tr b0 = Some (Done b) ->
    bridged_up b = None /\ bridged_closer b = closer_recv.
Proof.
  intros Hre. unfold ReceiveError, Do in Hre. simpl in Hre. simplify_eq.
  split; [done |].
  intros tr.
  match goal with |- forall b, brun tr ?b0 = _ -> _ =>
    assert (Hi : bridged_up b0 = None /\ bridged_closer b0 = closer_recv)
      by done;
    generalize dependent b0 end.
  induction tr as [| x tr IH]; intros b0 [Hup Hcl] b Hrun; simpl in Hrun.
  - by simplify_eq.
  - destruct (bstep x b0) as [[b1 | msg] |] eqn:Hstep; try done.
    apply (IH b1); [| done].
    destruct x as [a | a |]; simpl in Hstep.
    + by rewrite Hup in Hstep.
    + destruct (step a (bridged_ms b0)) as [[[] ms' | msg ms'] |];
        by simplify_eq.
    + unfold closer_step in Hstep. rewrite Hcl, Hup in Hstep. done.
Qed.

(** On [orphan_bridge]: [ReceiveError(nil)] returns it, and the goroutine's
    first statement is the end of the program. *)
Lemma orphan_bridge_dies :
  ReceiveError (E':=unit) None "bridge" = Done orphan_bridge /\
  brun [OnBridge (WorkerStart 0); CloserStep] orphan_bridge
  = Some (Panic "invalid memory address or nil pointer dereference").
Proof. split; (vm_compute; reflexivity). Qed.

(** C10: the function [ReceiveError] gives its stage forwards nothing on a
    nil error and returns (nil, nil); and whatever the schedule of the
    bridge (the steps of the upstream stage, those of the bridge stage and
    the statements of the goroutine that shuts the bridge stage down and
    closes the channel), every value its channel has carried is a non-nil
    error. *)
Theorem ReceiveError_carries_no_nil {E' : Type} (sm : option (world E'))
    (u : string) b0 tr b :
  ReceiveError sm u = Done b0 ->
  brun tr b0 = Some (Done b) ->
  (forall c v mc,
     code ReceiveError_handler c None v mc = (Done (VNil, None), mc)) /\
  exists mc,
    bridge_chan (bridged_ms b) = Some mc /\
    Forall (fun e => e <> None) (carried mc).
Proof.
  intros Hre Hrun. split; [done |].
  unfold ReceiveError, Do in Hre. simpl in Hre. simplify_eq.
  eapply brun_keeps; [| | exact Hrun]; [reflexivity |]. simpl. constructor.
Qed.

(** ** The contract on the example stages *)

(** C1: when the Processor panics on the unit a worker holds, the worker
    hands the recovery handler's call, with the synthetic error ["Panic"],
    to the logger and starts no call on the subscriber: the fault reaches
    the log only, where the claim has it broadcast to [Error]. *)
Theorem fault_is_logged_not_broadcast :
  pubs (st (one_unit (Some faulty))) = ["sub"] /\
  exists w',
    step (WorkerRun 0) (one_unit (Some faulty)) = Some (Ok tt w') /\
    logged w' = logged (one_unit (Some faulty)) ++ [panic_logcall "boom"] /\
    spawned w' = [].
Proof.
  split; [(vm_compute; reflexivity) |]. eexists. split; [(vm_compute; reflexivity) |].
  split; (vm_compute; reflexivity).
Qed.

(** C3: [New] takes a nil Processor without a failure: the stage is built
    and its worker is started; the first unit then hits the nil dereference
    inside the loop body, where it is recovered and logged.  [Do] panics on
    a nil function before it builds anything. *)
Theorem New_accepts_nil_Proc :
  proc (st (New (E:=unit) None "stage" 1 None)) = None /\
  pool (New (E:=unit) None "stage" 1 None) = [W_new] /\
  (exists w',
     step (WorkerRun 0) (one_unit None) = Some (Ok tt w') /\
     logged w'
     = logged (one_unit None) ++
       [panic_logcall "invalid memory address or nil pointer dereference"] /\
     Completed (Stats (st w')) = 0 /\ spawned w' = []) /\
  Do (E:=unit) (E':=unit) None "stage" 1 None = Panic "nil ProcHandler".
Proof.
  split; [(vm_compute; reflexivity) |]. split; [(vm_compute; reflexivity) |]. split; [| (vm_compute; reflexivity)].
  eexists. split; [(vm_compute; reflexivity) |]. repeat split; (vm_compute; reflexivity).
Qed.

(** C8 fails as stated: the worker finishes the unit the Processor panicked
    on, and [Completed] has not gone up by one. *)
Lemma Completed_unchanged_by_fault :
  exists w',
    step (WorkerRun 0) (one_unit (Some faulty)) = Some (Ok tt w') /\
    Completed (Stats (st w'))
    <> Completed (Stats (st (one_unit (Some faulty)))) + 1.
Proof. eexists. split; [(vm_compute; reflexivity) |]. vm_compute. discriminate. Qed.

(** C2 on [two_units]: the worker panics on the value 1 and then takes and
    processes the value 2. *)
Lemma worker_survives_fault_witness :
  exists w1 w2 w3,
    step (WorkerRun 0) two_units = Some (Ok tt w1) /\
    pool w1 !! 0%nat = Some W_recv /\
    data (st w1) = chan_open /\ closed (st w1) = closed (st two_units) /\
    step (Handoff 0 0) w1 = Some (Ok tt w2) /\
    pool w2 !! 0%nat = Some (W_busy (mkPayload None (VInt 2) 2)) /\
    step (WorkerRun 0) w2 = Some (Ok tt w3) /\
    pool w3 !! 0%nat = Some W_recv /\
    proc (st w3)
    = Some (mkProc (snd (Proc_Do picky 2%nat None (VInt 2) tt))
              (Proc_Do picky)).
Proof.
  apply (worker_survives_fault two_units 0 (mkPayload None (VInt 1) 1) 0
           via_Data (mkPayload None (VInt 2) 2) picky "boom" tt);
    (vm_compute; reflexivity).
Defined.

(** C4 on a stage whose Processor returns an error for the value 42: the
    subscriber gets [Error] and no [Data]. *)
Lemma fanout_Data_xor_Error_witness :
  exists w' calls,
    step (WorkerRun 0) (one_unit (Some failing)) = Some (Ok tt w') /\
    spawned w' = spawned (one_unit (Some failing)) ++ calls /\
    (errors_New "bad" = None ->
     calls = map (fun sm => go_Data sm 7%nat (VInt 42)) ["sub"]) /\
    (errors_New "bad" <> None ->
     calls = map (fun sm => go_Error sm 7%nat (errors_New "bad")) ["sub"]) /\
    ~ ((exists sm c v, In (go_Data sm c v) calls) /\
       (exists sm c e, In (go_Error sm c e) calls)).
Proof.
  apply (fanout_Data_xor_Error (one_unit (Some failing)) 0
           (mkPayload None (VInt 42) 7) failing (VInt 42) (errors_New "bad")
           tt); (vm_compute; reflexivity).
Defined.

(** C8, as the code has it, on a unit the Processor returns an error for. *)
Lemma Completed_counts_returns_witness :
  exists w',
    step (WorkerRun 0) (one_unit (Some failing)) = Some (Ok tt w') /\
    Completed (Stats (st w'))
    = Completed (Stats (st (one_unit (Some failing)))) + 1.
Proof.
  apply (Completed_counts_returns (one_unit (Some failing)) 0
           (mkPayload None (VInt 42) 7) failing
           (Done (VInt 42, errors_New "bad")) tt);
    [(vm_compute; reflexivity) | (vm_compute; reflexivity) | (vm_compute; reflexivity) |].
  vm_compute. split; [discriminate | reflexivity].
Defined.

(** C9 for four workers. *)
Lemma New_TotalWorkers_witness :
  TotalWorkers (Stats (st (New (E:=unit) None "stage" 4 (Some echo)))) = 4 + 1
  /\ length (pool (New (E:=unit) None "stage" 4 (Some echo))) = Z.to_nat 4.
Proof.
  apply (New_TotalWorkers (E:=unit) None "stage" 4 (Some echo)).
  unfold int64_max. lia.
Defined.

(** C7 on [full_schedule]: a [Data], an [Error], then [Shutdown]. *)
Lemma Pending_zero_after_Shutdown_witness :
  Pending (Stats (st shut_down)) = 0 /\ senders shut_down = [].
Proof.
  apply (Pending_zero_after_Shutdown None "stage" 1 (Some echo) full_schedule
           shut_down).
  (vm_compute; reflexivity).
Defined.

(** C5 on the stage [shut_down]. *)
Lemma Shutdown_twice_witness :
  exists w',
    step CallShutdown shut_down = Some (Ok tt w') /\
    st w' = st shut_down /\ pool w' = pool shut_down /\
    senders w' = senders shut_down /\ waiting w' = waiting shut_down /\
    spawned w' = spawned shut_down /\
    logged w'
    = logged shut_down ++
      [LogLog "Sumex.Stream" "Shutdown" "Started : Shutdown Requested" [];
       LogLog "Sumex.Stream" "Stats"
         "Completed : Shutdown Request : Previously Done" []] /\
    data (st w') = chan_closed /\ CloseNotify (st w') = chan_closed /\
    step ShutdownReturn w' = None /\
    notifications ((full_schedule ++ [ShutdownReturn]) ++ [CallShutdown])
    = 1%nat.
Proof.
  apply (Shutdown_twice None "stage" 1 (Some echo)
           (full_schedule ++ [ShutdownReturn]) shut_down).
  - (vm_compute; reflexivity).
  - apply in_app_iff. right. left. (vm_compute; reflexivity).
Defined.

(** C6 on the stage [shut_down]. *)
Lemma Data_Error_after_Shutdown_witness :
  step (CallData 9 (VInt 1)) shut_down = Some (Ok tt shut_down) /\
  step (CallError 9 (errors_New "late")) shut_down = Some (Ok tt shut_down) /\
  senders shut_down = [] /\
  Pending (Stats (st shut_down)) = 0.
Proof.
  apply (Data_Error_after_Shutdown None "stage" 1 (Some echo)
           (full_schedule ++ [ShutdownReturn]) shut_down).
  - (vm_compute; reflexivity).
  - apply in_app_iff. right. left. (vm_compute; reflexivity).
Defined.

(** The schedule [closing_schedule] runs to its end on the bridge of
    [upstream]: the channel has carried the one error and is closed, and
    the goroutine has returned. *)
Lemma closing_schedule_closes :
  brun closing_schedule error_bridge
  = Some (Done (bridge_after closing_schedule error_bridge)) /\
  bridge_chan (bridged_ms (bridge_after closing_schedule error_bridge))
  = Some (mkBchan [errors_New "bad"] chan_closed) /\
  bridged_closer (bridge_after closing_schedule error_bridge) = closer_done.
Proof.
  split; [(vm_compute; reflexivity) |].
  split; (vm_compute; reflexivity).
Qed.

(** C10 on the bridge of [upstream]: it is fed a value and an error, the
    upstream stage shuts down, and the goroutine of the bridge shuts the
    bridge stage down and closes the channel. *)
Lemma ReceiveError_carries_no_nil_witness :
  (forall c v mc,
     code ReceiveError_handler c None v mc = (Done (VNil, None), mc)) /\
  exists mc,
    bridge_chan (bridged_ms (bridge_after closing_schedule error_bridge))
    = Some mc /\
    Forall (fun e => e <> None) (carried mc).
Proof.
  apply (ReceiveError_carries_no_nil (Some upstream) "bridge" error_bridge
           closing_schedule (bridge_after closing_schedule error_bridge));
    (vm_compute; reflexivity).
Defined.

(** ** Accounting over schedules *)

Section Schedules.

Context {E : Type}.
Implicit Types (w : world E) (s : stream E) (tr : list action).

Ltac unfold_stage :=
  unfold Data, Data_sent, Error, Error_sent, Shutdown, Shutdown_joined,
    Stream, worker_enter, worker_leave, set_goroutine, take_sender,
    wg_Done, wg_Add, wg_Wait, close_data, close_nc, send, StoreInt64,
    AddInt64, LoadInt64, log_Log, log_Error, update, bind, ret in *.

Ltac unfold_with :=
  unfold with_st, with_logged, with_pool, with_senders, with_waiting,
    with_spawned, with_closed, with_processed, with_pending, with_workersUp,
    with_proc, with_data, with_nc, with_wg, with_pubs in *;
  simpl in *.

Lemma count_if_insert (f : goroutine -> bool) (l : list goroutine) j g0 g :
  l !! j = Some g0 ->
  (count_if f (<[j:=g]> l) + (if f g0 then 1 else 0)
   = count_if f l + (if f g then 1 else 0))%nat.
Proof.
  revert j. induction l as [| x l IH]; intros [| j] Hj; simpl in *;
    try done.
  - simplify_eq. lia.
  - specialize (IH j Hj). lia.
Qed.

Lemma count_if_le (f : goroutine -> bool) (l : list goroutine) :
  (count_if f l <= length l)%nat.
Proof. induction l as [| x l IH]; simpl; [lia |]. destruct (f x); lia. Qed.

Lemma count_if_replicate (f : goroutine -> bool) n g :
  f g = false -> count_if f (replicate n g) = 0%nat.
Proof. intros Hf. induction n as [| n IH]; simpl; [done |]. by rewrite Hf. Qed.

Lemma count_if_pos (f : goroutine -> bool) (l : list goroutine) :
  (0 < count_if f l)%nat -> exists j g, l !! j = Some g /\ f g = true.
Proof.
  induction l as [| x l IH]; simpl; [lia |]. intros Hpos.
  destruct (f x) eqn:Hx.
  - by exists 0%nat, x.
  - destruct IH as (j & g & Hj & Hg); [lia |]. by exists (S j), g.
Qed.

Lemma count_if_zero (f : goroutine -> bool) (l : list goroutine) j g :
  count_if f l = 0%nat -> l !! j = Some g -> f g = false.
Proof.
  revert j. induction l as [| x l IH]; intros [| j] H0 Hj; simpl in *;
    try done.
  - simplify_eq. destruct (f g); [done | done].
  - apply (IH j); [| done]. destruct (f x); [done | lia].
Qed.

Lemma New_pool_inv l u n pr : pool_inv (New (E:=E) l u n pr).
Proof.
  unfold New. split; simpl.
  - by rewrite count_if_replicate.
  - by rewrite count_if_replicate.
  - apply length_replicate.
  - destruct (n <=? 0) eqn:Hn; lia.
  - intros _. by apply count_if_replicate.
Qed.


(** The three ways the loop body can go, with the world each leaves. *)
Lemma worker_body_cases w load :
  (proc (st w) = None /\
   worker_body load w
   = Ok tt
       (with_logged
          (logged w ++
             [panic_logcall
                "invalid memory address or nil pointer dereference"]) w)) \/
  (exists pr msg e',
     proc (st w) = Some pr /\
     Proc_Do pr (ctx load) (err load) (d load) (Proc_env pr)
       = (Panic msg, e') /\
     worker_body load w
     = Ok tt
         (mkWorld (with_proc (Some (mkProc e' (Proc_Do pr))) (st w))
            (logged w ++ [panic_logcall msg])
            (pool w) (senders w) (waiting w) (spawned w))) \/
  (exists pr res er e',
     proc (st w) = Some pr /\
     Proc_Do pr (ctx load) (err load) (d load) (Proc_env pr)
       = (Done (res, er), e') /\
     worker_body load w
     = Ok tt
         (mkWorld
            (with_processed (wrap64 (processed (st w) + 1))
               (with_proc (Some (mkProc e' (Proc_Do pr))) (st w)))
            (logged w ++
               [LogLog "sumex.Stream" "worker"
                  "Info : Res : { Response: %+s, Error: %+s}"
                  [AValue res; AError er]])
            (pool w) (senders w) (waiting w)
            (spawned w ++ fanout load res er (pubs (st w))))).
Proof.
  destruct (proc (st w)) as [pr |] eqn:Hp.
  - destruct (Proc_Do pr (ctx load) (err load) (d load) (Proc_env pr))
      as [[[res er] | msg] e'] eqn:Hdo.
    + right. right. exists pr, res, er, e'.
      split; [done |]. split; [done |]. by apply worker_body_Done.
    + right. left. exists pr, msg, e'.
      split; [done |]. split; [done |]. by apply worker_body_Panic.
  - left. split; [done |]. by apply worker_body_nil.
Qed.

(** What a step that returns has done, action by action. *)
Lemma step_Ok_cases a w w' :
  step a w = Some (Ok tt w') ->
  match a with
  | CallData c v =>
      (0 < closed (st w) /\ w' = w) \/
      (closed (st w) <= 0 /\ data (st w) = chan_open /\
       w' = mkWorld (with_pending (wrap64 (pending (st w) + 1)) (st w))
              (logged w ++
                 [LogLog "sumex.Stream" "Data" "Started : Data Recieved : %s"
                    [ASprintf "%+v" (AValue v)]])
              (pool w) (senders w ++ [(via_Data, mkPayload None v c)])
              (waiting w) (spawned w))
  | CallError c e =>
      (closed (st w) <> 0 /\ w' = w) \/
      (closed (st w) = 0 /\ data (st w) = chan_open /\
       w' = mkWorld (with_pending (wrap64 (pending (st w) + 1)) (st w))
              (logged w ++
                 [LogError "sumex.Stream" "Error" e
                    "Started : Error Recieved : %s"
                    [ASprintf "%+v" (AError e)]])
              (pool w) (senders w ++ [(via_Error, mkPayload e VNil c)])
              (waiting w) (spawned w))
  | CallShutdown =>
      (0 < closed (st w) /\
       w' = with_logged
              (logged w ++
                 [LogLog "Sumex.Stream" "Shutdown"
                    "Started : Shutdown Requested" [];
                  LogLog "Sumex.Stream" "Stats"
                    "Completed : Shutdown Request : Previously Done" []]) w)
      \/
      (closed (st w) <= 0 /\ data (st w) = chan_open /\ senders w = [] /\
       w' = mkWorld
              (with_pending (wrap64 (wrap64 (pending (st w) + 1) + -1))
                 (with_data chan_closed (with_closed 1 (st w))))
              (logged w ++
                 [LogLog "Sumex.Stream" "Shutdown"
                    "Started : Shutdown Requested" []])
              (pool w) [] true (spawned w))
  | CallStream sm =>
      w' = with_st (with_pubs (pubs (st w) ++ [sm]) (st w)) w
  | WorkerStart j =>
      pool w !! j = Some W_new /\ 0 <= wg (st w) + 1 /\
      w' = mkWorld
             (with_workersUp (wrap64 (workersUp (st w) + 1))
                (with_wg (wg (st w) + 1) (st w)))
             (logged w) (<[j:=W_recv]> (pool w)) (senders w) (waiting w)
             (spawned w)
  | Handoff i j =>
      exists k load,
        senders w !! i = Some (k, load) /\ pool w !! j = Some W_recv /\
        data (st w) = chan_open /\
        w' = mkWorld (with_pending (wrap64 (pending (st w) + -1)) (st w))
               (logged w ++
                  [LogLog "sumex.Stream"
                     match k with via_Data => "Data" | via_Error => "Error" end
                     "Completed" []])
               (<[j:=W_busy load]> (pool w)) (delete i (senders w))
               (waiting w) (spawned w)
  | WorkerRun j =>
      exists load w1,
        pool w !! j = Some (W_busy load) /\
        worker_body load w = Ok tt w1 /\
        w' = with_pool (<[j:=W_recv]> (pool w1)) w1
  | WorkerExit j =>
      pool w !! j = Some W_recv /\ data (st w) = chan_closed /\
      0 <= wg (st w) + -1 /\
      w' = mkWorld
             (with_wg (wg (st w) + -1)
                (with_workersUp (wrap64 (workersUp (st w) + -1)) (st w)))
             (logged w ++
                [LogLog "sumex.Stream" "worker"
                   "Info : Goroutine : Shutdown" []])
             (<[j:=W_done]> (pool w)) (senders w) (waiting w) (spawned w)
  | ShutdownReturn =>
      waiting w = true /\ wg (st w) = 0 /\ nc (st w) = chan_open /\
      w' = mkWorld (with_nc chan_closed (st w))
             (logged w ++
                [LogLog "Sumex.Stream" "Shutdown"
                   "Completed : Shutdown Requested" []])
             (pool w) (senders w) false (spawned w)
  end.
Proof.
  intros Hstep.
  destruct a as [c v | c e | | sm | j | i j | j | j |]; simpl in Hstep.
  - unfold_stage. simpl in *.
    destruct (0 <? closed (st w)) eqn:Hcl.
    { left. simplify_eq. split; [lia | done]. }
    right. destruct (data (st w)) eqn:Hd; simplify_eq.
    split; [lia |]. unfold_with. rewrite ?Hs. done.
  - unfold_stage. simpl in *.
    destruct (closed (st w) =? 0) eqn:Hcl; simpl in *.
    2: { left. simplify_eq. split; [lia | done]. }
    right. destruct (data (st w)) eqn:Hd; simplify_eq.
    split; [lia |]. unfold_with. rewrite ?Hs. done.
  - unfold_stage. simpl in *.
    destruct (0 <? closed (st w)) eqn:Hcl; simpl in *.
    { left. simplify_eq. split; [lia |]. destruct w; unfold with_logged; simpl.
      by rewrite <- app_assoc. }
    right. destruct (data (st w)) eqn:Hd; simpl in *; [| done].
    destruct (senders w) eqn:Hs; simpl in *; [| done].
    simplify_eq. split; [lia |]. unfold_with. rewrite ?Hs. done.
  - unfold_stage. simpl in *. simplify_eq. by unfold_with.
  - destruct (pool w !! j) as [[] |]; try done.
    unfold_stage. simpl in *.
    destruct (wg (st w) + 1 <? 0) eqn:Hwg; simpl in *; simplify_eq.
    split; [done |]. split; [lia |]. by unfold_with.
  - destruct (senders w !! i) as [[k load] |] eqn:Hi; [| done].
    destruct (pool w !! j) as [[] |]; try done.
    destruct (data (st w)) eqn:Hd; [| done].
    exists k, load.
    destruct k; unfold_stage; simpl in *; simplify_eq; by unfold_with.
  - destruct (pool w !! j) as [[| | load |] |] eqn:Hj; try done.
    destruct (worker_body_frame w load) as (w1 & Hw1 & _).
    unfold bind in Hstep. rewrite Hw1 in Hstep.
    unfold set_goroutine in Hstep. simplify_eq. by exists load, w1.
  - destruct (pool w !! j) as [[] |]; try done.
    destruct (data (st w)) eqn:Hd; [done |].
    unfold_stage. simpl in *.
    destruct (wg (st w) + -1 <? 0) eqn:Hwg; simpl in *; simplify_eq.
    split; [done |]. split; [done |]. split; [lia |]. by unfold_with.
  - destruct (waiting w) eqn:Hw; simpl in Hstep; [| done].
    destruct (wg (st w) =? 0) eqn:Hwg; [| done].
    unfold_stage. simpl in *.
    destruct (nc (st w)) eqn:Hn; simpl in *; simplify_eq.
    split; [done |]. split; [lia |]. by unfold_with.
Qed.


(** A step leaves the configuration of the stage alone. *)
Lemma step_config a w w' :
  step a w = Some (Ok tt w') ->
  workers (st w') = workers (st w) /\ uuid (st w') = uuid (st w) /\
  log (st w') = log (st w).
Proof.
  intros Hstep. apply step_Ok_cases in Hstep.
  destruct a; simpl in Hstep.
  - destruct Hstep as [[_ ->] | (_ & _ & ->)]; done.
  - destruct Hstep as [[_ ->] | (_ & _ & ->)]; done.
  - destruct Hstep as [[_ ->] | (_ & _ & _ & ->)]; done.
  - by subst.
  - destruct Hstep as (_ & _ & ->). done.
  - destruct Hstep as (k & load & _ & _ & _ & ->). done.
  - destruct Hstep as (load & w1 & _ & Hb & ->).
    destruct (worker_body_cases w load)
      as [[_ Hn] | [(pr & msg & e' & _ & _ & Hn)
                   | (pr & res & er & e' & _ & _ & Hn)]];
      rewrite Hn in Hb; by simplify_eq.
  - destruct Hstep as (_ & _ & _ & ->). done.
  - destruct Hstep as (_ & _ & _ & ->). done.
Qed.

Lemma run_config tr w w' :
  run tr w = Some (Ok tt w') ->
  workers (st w') = workers (st w) /\ uuid (st w') = uuid (st w) /\
  log (st w') = log (st w).
Proof.
  revert w. induction tr as [| a tr IH]; intros w Hrun; simpl in Hrun.
  - by simplify_eq.
  - destruct (step a w) as [[[] w1 | msg w1] |] eqn:Hstep; try done.
    destruct (step_config a w w1 Hstep) as (? & ? & ?).
    destruct (IH w1 Hrun) as (? & ? & ?). repeat split; congruence.
Qed.

(** The counters of the workers follow the pool. *)
Lemma step_pool_inv a w w' :
  pool_inv w -> step a w = Some (Ok tt w') -> pool_inv w'.
Proof.
  intros [Hwg Hup Hsize Hpos Hopen] Hstep. apply step_Ok_cases in Hstep.
  destruct a; simpl in Hstep.
  - destruct Hstep as [[_ ->] | (_ & _ & ->)]; by split.
  - destruct Hstep as [[_ ->] | (_ & _ & ->)]; by split.
  - destruct Hstep as [[_ ->] | (_ & _ & _ & ->)]; by split.
  - subst. by split.
  - destruct Hstep as (Hj & _ & ->).
    pose proof (count_if_insert running (pool w) j W_new W_recv Hj) as Hr.
    pose proof (count_if_insert returned (pool w) j W_new W_recv Hj) as Hd.
    simpl in Hr, Hd.
    split; simpl; rewrite ?length_insert; try done.
    + rewrite Hwg. lia.
    + rewrite Hup, wrap64_add_l. f_equal. lia.
    + intros Ho. specialize (Hopen Ho). lia.
  - destruct Hstep as (k & load & _ & Hj & _ & ->).
    pose proof (count_if_insert running (pool w) j W_recv (W_busy load) Hj)
      as Hr.
    pose proof (count_if_insert returned (pool w) j W_recv (W_busy load) Hj)
      as Hd.
    simpl in Hr, Hd.
    split; simpl; rewrite ?length_insert; try done.
    + rewrite Hwg. lia.
    + rewrite Hup. f_equal. lia.
    + intros Ho. specialize (Hopen Ho). lia.
  - destruct Hstep as (load & w1 & Hj & Hb & ->).
    pose proof (count_if_insert running (pool w) j (W_busy load) W_recv Hj)
      as Hr.
    pose proof (count_if_insert returned (pool w) j (W_busy load) W_recv Hj)
      as Hd.
    simpl in Hr, Hd.
    destruct (worker_body_cases w load)
      as [[_ Hn] | [(pr & msg & e' & _ & _ & Hn)
                   | (pr & res & er & e' & _ & _ & Hn)]];
      rewrite Hn in Hb; simplify_eq;
      (split; simpl; rewrite ?length_insert; try done;
       [ rewrite Hwg; lia
       | rewrite Hup; f_equal; lia
       | intros Ho; specialize (Hopen Ho); lia ]).
  - destruct Hstep as (Hj & Hd & _ & ->).
    pose proof (count_if_insert running (pool w) j W_recv W_done Hj) as Hr.
    simpl in Hr.
    split; simpl; rewrite ?length_insert; try done.
    + rewrite Hwg. lia.
    + rewrite Hup, wrap64_add_l. f_equal. lia.
    + intros Ho. congruence.
  - destruct Hstep as (_ & _ & _ & ->). by split.
Qed.

Lemma run_pool_inv tr w w' :
  pool_inv w -> run tr w = Some (Ok tt w') -> pool_inv w'.
Proof.
  revert w. induction tr as [| a tr IH]; intros w Hinv Hrun; simpl in Hrun.
  - by simplify_eq.
  - destruct (step a w) as [[[] w1 | msg w1] |] eqn:Hstep; try done.
    eapply IH; [| done]. by eapply step_pool_inv.
Qed.


(** *** Subscribers *)

Lemma run_pubs tr w w' :
  run tr w = Some (Ok tt w') ->
  pubs (st w') = pubs (st w) ++ subscribers_of tr.
Proof.
  revert w. induction tr as [| a tr IH]; intros w Hrun; simpl in Hrun.
  - simplify_eq. simpl. by rewrite app_nil_r.
  - destruct (step a w) as [[[] w1 | msg w1] |] eqn:Hstep; try done.
    rewrite (IH w1 Hrun). apply step_Ok_cases in Hstep.
    destruct a; simpl in Hstep; simpl.
    + destruct Hstep as [[_ ->] | (_ & _ & ->)]; done.
    + destruct Hstep as [[_ ->] | (_ & _ & ->)]; done.
    + destruct Hstep as [[_ ->] | (_ & _ & _ & ->)]; done.
    + subst. simpl. by rewrite <- app_assoc.
    + destruct Hstep as (_ & _ & ->). done.
    + destruct Hstep as (k & load & _ & _ & _ & ->). done.
    + destruct Hstep as (load & w1' & _ & Hb & ->).
      destruct (worker_body_cases w load)
        as [[_ Hn] | [(pr & msg & e' & _ & _ & Hn)
                     | (pr & res & er & e' & _ & _ & Hn)]];
        rewrite Hn in Hb; by simplify_eq.
    + destruct Hstep as (_ & _ & _ & ->). done.
    + destruct Hstep as (_ & _ & _ & ->). done.
Qed.

(** X1: the subscriber list of a stage is exactly the arguments of the
    [Stream] calls made on it, in the order of the calls; nothing else adds
    to it, nothing removes from it (not even [Shutdown]), and a stream
    registered twice is listed twice. *)
Theorem pubs_are_the_registrations l u n pr tr w :
  run tr (New l u n pr) = Some (Ok tt w) ->
  pubs (st w) = subscribers_of tr.
Proof. intros Hrun. by rewrite (run_pubs _ _ _ Hrun). Qed.

Lemma fanout_targets load res er subs :
  Forall (fun c => In (target c) subs) (fanout load res er subs).
Proof.
  unfold fanout. apply Forall_forall. intros c Hc.
  destruct er; apply list_elem_of_In, in_map_iff in Hc as (sm & <- & Hin);
    done.
Qed.

Lemma step_spawned_targets a w w' :
  step a w = Some (Ok tt w') ->
  Forall (fun c => In (target c) (pubs (st w))) (spawned w) ->
  Forall (fun c => In (target c) (pubs (st w'))) (spawned w').
Proof.
  intros Hstep Hall. apply step_Ok_cases in Hstep.
  destruct a; simpl in Hstep.
  - destruct Hstep as [[_ ->] | (_ & _ & ->)]; done.
  - destruct Hstep as [[_ ->] | (_ & _ & ->)]; done.
  - destruct Hstep as [[_ ->] | (_ & _ & _ & ->)]; done.
  - subst. simpl. eapply Forall_impl; [exact Hall |].
    intros c Hc. simpl in Hc. apply in_app_iff. by left.
  - destruct Hstep as (_ & _ & ->). done.
  - destruct Hstep as (k & load & _ & _ & _ & ->). done.
  - destruct Hstep as (load & w1 & _ & Hb & ->).
    destruct (worker_body_cases w load)
      as [[_ Hn] | [(pr & msg & e' & _ & _ & Hn)
                   | (pr & res & er & e' & _ & _ & Hn)]];
      rewrite Hn in Hb; simplify_eq; simpl; try done.
    apply Forall_app. split; [done |]. apply fanout_targets.
  - destruct Hstep as (_ & _ & _ & ->). done.
  - destruct Hstep as (_ & _ & _ & ->). done.
Qed.

(** X2: a stage only ever starts calls on streams that were registered with
    it through [Stream]: in every schedule, the target of every started
    [Data] or [Error] call is in the subscriber list. *)
Theorem calls_go_to_subscribers l u n pr tr w :
  run tr (New l u n pr) = Some (Ok tt w) ->
  Forall (fun c => In (target c) (pubs (st w))) (spawned w).
Proof.
  assert (Hgen : forall tr w0 w',
    run tr w0 = Some (Ok tt w') ->
    Forall (fun c => In (target c) (pubs (st w0))) (spawned w0) ->
    Forall (fun c => In (target c) (pubs (st w'))) (spawned w')).
  { clear. induction tr as [| a tr IH]; intros w0 w' Hrun Hall;
      simpl in Hrun.
    - by simplify_eq.
    - destruct (step a w0) as [[[] w1 | msg w1] |] eqn:Hstep; try done.
      eapply IH; [exact Hrun |]. by eapply step_spawned_targets. }
  intros Hrun. eapply Hgen; [exact Hrun |]. simpl. constructor.
Qed.

(** *** Counters *)

(** X3: in every schedule [Stats] reports as [TotalWorkersRunning] the
    number of workers that have entered [worker] and not yet returned; this
    number is never negative and never above the configured worker count,
    so [TotalWorkers], which is that count plus one, is never reached. *)
Theorem TotalWorkersRunning_counts_pool l u n pr tr w :
  n <= int64_max ->
  run tr (New l u n pr) = Some (Ok tt w) ->
  TotalWorkersRunning (Stats (st w))
  = Z.of_nat (count_if running (pool w)) /\
  0 <= TotalWorkersRunning (Stats (st w)) <= workers (st w) /\
  workers (st w) = (if n <=? 0 then 1 else n) /\
  length (pool w) = Z.to_nat (workers (st w)).
Proof.
  intros Hn Hrun.
  pose proof (run_pool_inv _ _ _ (New_pool_inv l u n pr) Hrun)
    as [Hwg Hup Hsize Hpos Hopen].
  destruct (run_config _ _ _ Hrun) as (Hw & _ & _). simpl in Hw.
  pose proof (count_if_le running (pool w)) as Hle.
  assert (Hmax : workers (st w) <= int64_max).
  { rewrite Hw. destruct (n <=? 0); [unfold int64_max; lia | done]. }
  assert (Hsmall :
    wrap64 (Z.of_nat (count_if running (pool w)))
    = Z.of_nat (count_if running (pool w))).
  { apply wrap64_small. unfold in_int64, int64_min, int64_max in *. lia. }
  simpl. rewrite Hup, Hsmall. repeat split; try done; lia.
Qed.

(** X4: [Pending] never under-reports the blocked callers.  In every
    schedule every caller of [Data] and [Error] that is blocked in the send
    on the intake channel is counted in what [Stats] reports as [Pending]:
    it has added its 1 before the send and takes it back only afterwards.
    ([Shutdown] adds its own 1 around [close(s.data)], so the count can be
    above the number of blocked callers.) *)
Theorem Pending_bounds_blocked_senders l u n pr tr w :
  Z.of_nat (length (senders w)) <= int64_max ->
  run tr (New l u n pr) = Some (Ok tt w) ->
  Z.of_nat (length (senders w)) <= Pending (Stats (st w)).
Proof.
  intros Hlen Hrun.
  pose proof (run_inv _ _ _ (New_inv l u n pr) Hrun) as [Hp _ _ _].
  simpl. rewrite Hp. rewrite wrap64_small; [lia |].
  unfold in_int64, int64_min, int64_max in *. lia.
Qed.

(** *** The closed flag and the two channels *)

Lemma run_closed tr w w' :
  inv w -> run tr w = Some (Ok tt w') ->
  closed (st w') = (if calls_Shutdown tr then 1 else closed (st w)) /\
  nc (st w')
  = (if returns_Shutdown tr then chan_closed else nc (st w)).
Proof.
  revert w. induction tr as [| a tr IH]; intros w Hinv Hrun; simpl in Hrun.
  - by simplify_eq.
  - destruct (step a w) as [[[] w1 | msg w1] |] eqn:Hstep; try done.
    pose proof (step_inv a w w1 Hinv Hstep) as Hinv1.
    destruct (IH w1 Hinv1 Hrun) as [Hc Hn].
    pose proof Hinv as [_ Hopen Hclosed _].
    pose proof (step_Ok_cases a w w1 Hstep) as Hcases.
    destruct a; simpl in Hcases; unfold returns_Shutdown in *; simpl.
    + destruct Hcases as [[_ ->] | (_ & _ & ->)]; done.
    + destruct Hcases as [[_ ->] | (_ & _ & ->)]; done.
    + destruct Hcases as [[Hpos ->] | (_ & _ & _ & ->)]; simpl in *.
      * split; [| done]. rewrite Hc.
        destruct (calls_Shutdown tr); [done |].
        destruct (data (st w)) eqn:Hd.
        -- destruct (Hopen eq_refl) as (? & _). lia.
        -- destruct (Hclosed eq_refl) as (? & _). done.
      * split; [| done]. rewrite Hc. by destruct (calls_Shutdown tr).
    + subst. done.
    + destruct Hcases as (_ & _ & ->). done.
    + destruct Hcases as (k & load & _ & _ & _ & ->). done.
    + destruct Hcases as (load & w1' & _ & Hb & ->).
      destruct (worker_body_cases w load)
        as [[_ Hnil] | [(pr & msg & e' & _ & _ & Hnil)
                       | (pr & res & er & e' & _ & _ & Hnil)]];
        rewrite Hnil in Hb; by simplify_eq.
    + destruct Hcases as (_ & _ & _ & ->). done.
    + destruct Hcases as (_ & _ & _ & ->). simpl in *.
      split; [done |].
      destruct (run_after_notify tr _ w' Hinv1 eq_refl Hrun) as [_ ->].
      done.
Qed.

(** X5: the three marks of the life of a stage follow the calls of
    [Shutdown] and nothing else.  [Stats] reports [Closed] as 1 from the
    first call of [Shutdown] on and as 0 before; the intake channel is
    closed from that call on; the channel of [CloseNotify] is closed from
    the moment that call returns, and open until then. *)
Theorem closed_marks_follow_Shutdown l u n pr tr w :
  run tr (New l u n pr) = Some (Ok tt w) ->
  Closed (Stats (st w)) = (if calls_Shutdown tr then 1 else 0) /\
  data (st w) = (if calls_Shutdown tr then chan_closed else chan_open) /\
  CloseNotify (st w)
  = (if returns_Shutdown tr then chan_closed else chan_open).
Proof.
  intros Hrun.
  pose proof (run_inv _ _ _ (New_inv l u n pr) Hrun) as [_ Hopen Hclosed _].
  destruct (run_closed _ _ _ (New_inv l u n pr) Hrun) as [Hc Hn].
  simpl in Hc, Hn. split; [done |]. split; [| done].
  destruct (data (st w)) eqn:Hd.
  - destruct (Hopen eq_refl) as (H0 & _). rewrite H0 in Hc.
    by destruct (calls_Shutdown tr).
  - destruct (Hclosed eq_refl) as (H1 & _). rewrite H1 in Hc.
    by destruct (calls_Shutdown tr).
Qed.


(** *** Faults *)


(** *** Draining *)

Lemma count_holds_le_running (l : list goroutine) :
  (count_if holds_unit l <= count_if running l)%nat.
Proof. induction l as [| [] l IH]; simpl; lia. Qed.

(** Every send a schedule completes puts a unit into a worker's hands, and
    every run of the loop body takes one out. *)
Lemma run_units tr w w' :
  run tr w = Some (Ok tt w') ->
  (handoffs tr + count_if holds_unit (pool w)
   = runs tr + count_if holds_unit (pool w'))%nat.
Proof.
  revert w. induction tr as [| a tr IH]; intros w Hrun; simpl in Hrun.
  - by simplify_eq.
  - destruct (step a w) as [[[] w1 | msg w1] |] eqn:Hstep; try done.
    specialize (IH w1 Hrun). apply step_Ok_cases in Hstep.
    destruct a; simpl in Hstep; simpl.
    + destruct Hstep as [[_ ->] | (_ & _ & ->)]; done.
    + destruct Hstep as [[_ ->] | (_ & _ & ->)]; done.
    + destruct Hstep as [[_ ->] | (_ & _ & _ & ->)]; done.
    + subst. done.
    + destruct Hstep as (Hj & _ & ->). simpl in IH.
      pose proof (count_if_insert holds_unit (pool w) j W_new W_recv Hj)
        as Hc. simpl in Hc. lia.
    + destruct Hstep as (k & load & _ & Hj & _ & ->). simpl in IH.
      pose proof (count_if_insert holds_unit (pool w) j W_recv (W_busy load)
                    Hj) as Hc. simpl in Hc. lia.
    + destruct Hstep as (load & w1' & Hj & Hb & ->).
      pose proof (count_if_insert holds_unit (pool w) j (W_busy load) W_recv
                    Hj) as Hc. simpl in Hc.
      destruct (worker_body_cases w load)
        as [[_ Hn] | [(pr & msg & e' & _ & _ & Hn)
                     | (pr & res & er & e' & _ & _ & Hn)]];
        rewrite Hn in Hb; simplify_eq; simpl in IH; lia.
    + destruct Hstep as (Hj & _ & _ & ->). simpl in IH.
      pose proof (count_if_insert holds_unit (pool w) j W_recv W_done Hj)
        as Hc. simpl in Hc. lia.
    + destruct Hstep as (_ & _ & _ & ->). done.
Qed.

(** X8: the call of [Shutdown] that closes the intake channel returns only
    after the stage has drained: when it returns, every unit that a send
    handed to a worker has been through the loop body, no worker holds a
    unit, and the intake channel is closed.  (A worker holding a unit has
    run [s.wg.Add(1)] and not yet [s.wg.Done()], so [s.wg.Wait()] cannot
    return before it; a worker that has yet to run its first statement is
    not waited for, see X13.) *)
Theorem Shutdown_returns_after_drain l u n pr tr w :
  run (tr ++ [ShutdownReturn]) (New l u n pr) = Some (Ok tt w) ->
  runs tr = handoffs tr /\
  (forall j load, pool w !! j <> Some (W_busy load)) /\
  data (st w) = chan_closed.
Proof.
  intros Hrun. apply run_snoc in Hrun as (w1 & Hrun & Hstep).
  pose proof (run_pool_inv _ _ _ (New_pool_inv l u n pr) Hrun)
    as [Hwg Hup _ _ _].
  pose proof (run_inv _ _ _ (New_inv l u n pr) Hrun) as [_ Hopen _ _].
  pose proof (run_units _ _ _ Hrun) as Hunits.
  apply step_Ok_cases in Hstep. simpl in Hstep.
  destruct Hstep as (Hw & Hwg0 & _ & ->). simpl.
  assert (Hzero : count_if running (pool w1) = 0%nat) by lia.
  pose proof (count_holds_le_running (pool w1)) as Hle.
  split; [| split].
  - simpl in Hunits.
    rewrite count_if_replicate in Hunits by done. lia.
  - intros j load Hj.
    pose proof (count_if_zero running (pool w1) j _ Hzero Hj) as Hg.
    done.
  - destruct (data (st w1)); [| done].
    destruct (Hopen eq_refl) as (_ & _ & Hf). congruence.
Qed.


(** *** The Processor over a schedule *)

(** The Processor is called once on every unit the workers serve, in the
    order of the schedule, and by nothing else. *)
Lemma run_proc tr w w' pr :
  run tr w = Some (Ok tt w') ->
  proc (st w) = Some pr ->
  proc (st w')
  = Some (mkProc (env_after (Proc_Do pr) (served tr w) (Proc_env pr))
            (Proc_Do pr)).
Proof.
  revert w pr. induction tr as [| a tr IH]; intros w pr Hrun Hp;
    simpl in Hrun; simpl.
  - simplify_eq. rewrite Hp. by destruct pr.
  - destruct (step a w) as [[[] w1 | msg w1] |] eqn:Hstep; try done.
    pose proof (step_Ok_cases a w w1 Hstep) as Hcases.
    destruct a; simpl in Hcases.
    + apply (IH w1 pr Hrun).
      destruct Hcases as [[_ ->] | (_ & _ & ->)]; done.
    + apply (IH w1 pr Hrun).
      destruct Hcases as [[_ ->] | (_ & _ & ->)]; done.
    + apply (IH w1 pr Hrun).
      destruct Hcases as [[_ ->] | (_ & _ & _ & ->)]; done.
    + apply (IH w1 pr Hrun). subst. done.
    + apply (IH w1 pr Hrun). destruct Hcases as (_ & _ & ->). done.
    + apply (IH w1 pr Hrun).
      destruct Hcases as (k & load & _ & _ & _ & ->). done.
    + destruct Hcases as (load & w1' & Hj & Hb & ->). rewrite Hj.
      destruct (worker_body_cases w load)
        as [[Hnone _] | [(pr' & msg & e' & Hp' & Hdo & Hn)
                        | (pr' & res & er & e' & Hp' & Hdo & Hn)]];
        [congruence | |];
        rewrite Hn in Hb; simplify_eq;
        rewrite (IH _ (mkProc e' (Proc_Do pr)) Hrun eq_refl); simpl;
        unfold env_after; simpl; by rewrite Hdo.
    + apply (IH w1 pr Hrun). destruct Hcases as (_ & _ & _ & ->). done.
    + apply (IH w1 pr Hrun). destruct Hcases as (_ & _ & _ & ->). done.
Qed.

(** The processed counter goes up once per run of the loop body when the
    Processor never panics. *)
Lemma run_processed tr w w' pr :
  (forall c e v env, exists r, fst (Proc_Do pr c e v env) = Done r) ->
  in_int64 (processed (st w)) ->
  run tr w = Some (Ok tt w') ->
  proc (st w) = Some pr ->
  processed (st w') = wrap64 (processed (st w) + Z.of_nat (runs tr)).
Proof.
  intros Htotal. revert w pr Htotal.
  induction tr as [| a tr IH]; intros w pr Htotal Hrange Hrun Hp;
    simpl in Hrun.
  - simplify_eq. simpl. rewrite Z.add_0_r. by rewrite wrap64_small.
  - destruct (step a w) as [[[] w1 | msg w1] |] eqn:Hstep; try done.
    pose proof (step_Ok_cases a w w1 Hstep) as Hcases.
    destruct a; simpl in Hcases; simpl runs.
    + rewrite (IH w1 pr Htotal); try done;
        destruct Hcases as [[_ ->] | (_ & _ & ->)]; done.
    + rewrite (IH w1 pr Htotal); try done;
        destruct Hcases as [[_ ->] | (_ & _ & ->)]; done.
    + rewrite (IH w1 pr Htotal); try done;
        destruct Hcases as [[_ ->] | (_ & _ & _ & ->)]; done.
    + rewrite (IH w1 pr Htotal); try done; subst; done.
    + rewrite (IH w1 pr Htotal); try done;
        destruct Hcases as (_ & _ & ->); done.
    + rewrite (IH w1 pr Htotal); try done;
        destruct Hcases as (k & load & _ & _ & _ & ->); done.
    + destruct Hcases as (load & w1' & Hj & Hb & ->).
      destruct (worker_body_cases w load)
        as [[Hnone _] | [(pr' & msg & e' & Hp' & Hdo & Hn)
                        | (pr' & res & er & e' & Hp' & Hdo & Hn)]].
      * congruence.
      * rewrite Hp in Hp'. simplify_eq.
        destruct (Htotal (ctx load) (err load) (d load) (Proc_env pr'))
          as [r Hr]. rewrite Hdo in Hr. done.
      * rewrite Hp in Hp'. simplify_eq. rewrite Hn in Hb. simplify_eq.
        match goal with
        | H : run tr ?w1 = _ |- _ =>
            rewrite (IH w1 (mkProc e' (Proc_Do pr')) Htotal); simpl;
              try done
        end.
        -- rewrite wrap64_add_l. f_equal. lia.
        -- apply wrap64_range.
    + rewrite (IH w1 pr Htotal); try done;
        destruct Hcases as (_ & _ & _ & ->); done.
    + rewrite (IH w1 pr Htotal); try done;
        destruct Hcases as (_ & _ & _ & ->); done.
Qed.

(** Once [Shutdown] has returned no worker holds a unit any more. *)
Lemma step_no_units_after_return a w w' :
  inv w -> pool_inv w -> step a w = Some (Ok tt w') ->
  (nc (st w) = chan_closed -> count_if holds_unit (pool w) = 0%nat) ->
  nc (st w') = chan_closed -> count_if holds_unit (pool w') = 0%nat.
Proof.
  intros [_ Hopen _ _] [Hwg _ _ _ _] Hstep Hprev.
  apply step_Ok_cases in Hstep. destruct a; simpl in Hstep.
  - destruct Hstep as [[_ ->] | (_ & _ & ->)]; done.
  - destruct Hstep as [[_ ->] | (_ & _ & ->)]; done.
  - destruct Hstep as [[_ ->] | (_ & _ & _ & ->)]; done.
  - subst. done.
  - destruct Hstep as (Hj & _ & ->). simpl. intros Hn.
    pose proof (count_if_insert holds_unit (pool w) j W_new W_recv Hj) as Hc.
    simpl in Hc. specialize (Hprev Hn). lia.
  - destruct Hstep as (k & load & _ & _ & Hd & ->). simpl. intros Hn.
    destruct (Hopen Hd) as (_ & ? & _). congruence.
  - destruct Hstep as (load & w1 & Hj & Hb & ->).
    pose proof (count_if_insert holds_unit (pool w) j (W_busy load) W_recv
                  Hj) as Hc. simpl in Hc.
    destruct (worker_body_cases w load)
      as [[_ Hn] | [(pr & msg & e' & _ & _ & Hn)
                   | (pr & res & er & e' & _ & _ & Hn)]];
      rewrite Hn in Hb; simplify_eq; simpl; intros Hnc;
      specialize (Hprev Hnc); lia.
  - destruct Hstep as (Hj & _ & _ & ->). simpl. intros Hn.
    pose proof (count_if_insert holds_unit (pool w) j W_recv W_done Hj) as Hc.
    simpl in Hc. specialize (Hprev Hn). lia.
  - destruct Hstep as (_ & Hwg0 & _ & ->). simpl. intros _.
    pose proof (count_holds_le_running (pool w)). lia.
Qed.

Lemma run_no_units_after_return tr w w' :
  inv w -> pool_inv w -> run tr w = Some (Ok tt w') ->
  (nc (st w) = chan_closed -> count_if holds_unit (pool w) = 0%nat) ->
  nc (st w') = chan_closed -> count_if holds_unit (pool w') = 0%nat.
Proof.
  revert w. induction tr as [| a tr IH]; intros w Hinv Hpool Hrun Hprev;
    simpl in Hrun.
  - by simplify_eq.
  - destruct (step a w) as [[[] w1 | msg w1] |] eqn:Hstep; try done.
    apply (IH w1); [by eapply step_inv | by eapply step_pool_inv | done |].
    by eapply step_no_units_after_return.
Qed.

(** X9: a stage whose Processor never panics accounts for every unit.  At
    any moment [Completed] is the number of times a worker has run the loop
    body; once [Shutdown] has returned it is the number of sends that were
    completed, that is of calls of [Data] and [Error] that were accepted and
    have returned. *)
Theorem Completed_counts_accepted_units l u n pr tr w :
  (forall c e v env, exists r, fst (Proc_Do pr c e v env) = Done r) ->
  run tr (New l u n (Some pr)) = Some (Ok tt w) ->
  Completed (Stats (st w)) = wrap64 (Z.of_nat (runs tr)) /\
  (returns_Shutdown tr = true ->
   Completed (Stats (st w)) = wrap64 (Z.of_nat (handoffs tr))).
Proof.
  intros Htotal Hrun.
  pose proof (run_processed tr (New l u n (Some pr)) w pr Htotal) as Hp.
  simpl in Hp. change (Completed (Stats (st w))) with (processed (st w)).
  rewrite Hp; [| done | done | done]. simpl. split; [done |].
  intros Hret. f_equal. f_equal.
  pose proof (run_units _ _ _ Hrun) as Hunits. simpl in Hunits.
  rewrite count_if_replicate in Hunits by done.
  destruct (run_closed _ _ _ (New_inv l u n (Some pr)) Hrun) as [_ Hn].
  rewrite Hret in Hn.
  pose proof (run_no_units_after_return _ _ _ (New_inv l u n (Some pr))
                (New_pool_inv l u n (Some pr)) Hrun) as Hnone.
  simpl in Hnone. rewrite Hnone in Hunits; [lia | done | done].
Qed.


Lemma served_length tr w w' :
  run tr w = Some (Ok tt w') -> length (served tr w) = runs tr.
Proof.
  revert w. induction tr as [| a tr IH]; intros w Hrun; simpl in *;
    [done |].
  destruct (step a w) as [[[] w1 | msg w1] |] eqn:Hstep; try done.
  specialize (IH w1 Hrun).
  pose proof (step_Ok_cases a w w1 Hstep) as Hcases.
  destruct a; simpl in Hcases; try done.
  destruct Hcases as (load & w1' & Hj & _ & _). rewrite Hj. simpl.
  by rewrite IH.
Qed.

(** X10: over a whole schedule the Processor is called exactly once on
    every unit a worker serves, in the order in which the workers serve
    them, and nothing else touches what it has captured: the Processor the
    stage holds at the end is the one it was built with, after these calls
    in turn. *)
Theorem Processor_called_once_per_unit l u n pr tr w :
  run tr (New l u n (Some pr)) = Some (Ok tt w) ->
  proc (st w)
  = Some (mkProc
            (env_after (Proc_Do pr) (served tr (New l u n (Some pr)))
               (Proc_env pr))
            (Proc_Do pr)) /\
  length (served tr (New l u n (Some pr))) = runs tr.
Proof.
  intros Hrun. split.
  - by apply (run_proc tr _ w pr Hrun).
  - by eapply served_length.
Qed.

(** *** Progress *)

Lemma run_cons a tr w w1 :
  step a w = Some (Ok tt w1) -> run (a :: tr) w = run tr w1.
Proof.
  intros Hs.
  change (run (a :: tr) w)
    with (match step a w with
          | Some (Ok _ w') => run tr w'
          | Some (Fault msg w') => Some (Fault msg w')
          | None => None
          end).
  by rewrite Hs.
Qed.

Lemma WorkerRun_enabled w j load :
  pool w !! j = Some (W_busy load) ->
  exists w', step (WorkerRun j) w = Some (Ok tt w').
Proof.
  intros Hj. simpl. rewrite Hj. unfold bind.
  destruct (worker_body_frame w load) as (w1 & -> & _).
  eexists. reflexivity.
Qed.

Lemma WorkerExit_enabled w j :
  pool_inv w -> pool w !! j = Some W_recv -> data (st w) = chan_closed ->
  exists w', step (WorkerExit j) w = Some (Ok tt w').
Proof.
  intros [Hwg _ _ _ _] Hj Hd. simpl. rewrite Hj, Hd.
  unfold_stage. simpl.
  destruct (wg (st w) + -1 <? 0) eqn:Hlt; [| eexists; reflexivity].
  destruct (count_if running (pool w)) as [| m] eqn:Hcount; [| lia].
  pose proof (count_if_zero running (pool w) j W_recv Hcount Hj). done.
Qed.

Lemma WorkerStart_enabled w j :
  pool_inv w -> pool w !! j = Some W_new ->
  exists w', step (WorkerStart j) w = Some (Ok tt w').
Proof.
  intros [Hwg _ _ _ _] Hj. simpl. rewrite Hj.
  unfold_stage. simpl.
  destruct (wg (st w) + 1 <? 0) eqn:Hlt; [lia |]. eexists. reflexivity.
Qed.

(** The workers alone bring a closed stage to the point where no worker is
    running. *)
Lemma drain_progress k w :
  inv w -> pool_inv w -> data (st w) = chan_closed ->
  count_if running (pool w) = k ->
  exists tr' w',
    run tr' w = Some (Ok tt w') /\
    forallb worker_step tr' = true /\
    wg (st w') = 0 /\ waiting w' = waiting w /\ inv w'.
Proof.
  revert w. induction k as [| k IH]; intros w Hinv Hpool Hd Hk.
  - exists [], w. simpl. split; [done |]. split; [done |].
    split; [| done]. destruct Hpool as [Hwg _ _ _ _]. rewrite Hwg, Hk. done.
  - assert (Hexit : forall w1 j,
      inv w1 -> pool_inv w1 -> data (st w1) = chan_closed ->
      count_if running (pool w1) = S k -> pool w1 !! j = Some W_recv ->
      exists tr' w',
        run (WorkerExit j :: tr') w1 = Some (Ok tt w') /\
        forallb worker_step tr' = true /\
        wg (st w') = 0 /\ waiting w' = waiting w1 /\ inv w').
    { intros w1 j Hinv1 Hpool1 Hd1 Hk1 Hj.
      destruct (WorkerExit_enabled w1 j Hpool1 Hj Hd1) as (w2 & Hs).
      pose proof (step_Ok_cases _ _ _ Hs) as Hc. simpl in Hc.
      destruct Hc as (_ & _ & _ & Hw2).
      pose proof (count_if_insert running (pool w1) j W_recv W_done Hj) as Hr.
      simpl in Hr.
      destruct (IH w2) as (tr' & w' & Hrun & Hall & Hwg & Hwait & Hinv');
        [by eapply step_inv | by eapply step_pool_inv
        | by subst | subst; simpl; lia |].
      exists tr', w'. rewrite (run_cons _ _ _ _ Hs).
      split; [done |]. split; [done |]. split; [done |]. split; [| done].
      rewrite Hwait. by subst. }
    destruct (count_if_pos running (pool w)) as (j & g & Hj & Hg); [lia |].
    destruct g as [| | load |]; try done.
    + destruct (Hexit w j) as (tr' & w' & Hrun & Hall & Hrest); try done.
      exists (WorkerExit j :: tr'), w'. simpl. by rewrite Hall.
    + destruct (WorkerRun_enabled w j load Hj) as (w1 & Hs).
      pose proof (step_Ok_cases _ _ _ Hs) as Hc. simpl in Hc.
      destruct Hc as (load' & wb & Hj' & Hb & Hw1).
      destruct (worker_body_frame w load')
        as (wb' & Hb' & Hpl & _ & Hwt & _ & _ & Hdt & _).
      rewrite Hb in Hb'. simplify_eq.
      pose proof (count_if_insert running (pool w) j (W_busy load) W_recv Hj)
        as Hr. simpl in Hr.
      destruct (Hexit (with_pool (<[j:=W_recv]> (pool wb')) wb') j)
        as (tr' & w' & Hrun & Hall & Hwg & Hwait & Hinv');
        [by eapply step_inv | by eapply step_pool_inv
        | simpl; congruence | simpl; rewrite Hpl; lia
        | simpl; rewrite Hpl; apply list_lookup_insert_eq;
          by eapply lookup_lt_Some |].
      exists (WorkerRun j :: WorkerExit j :: tr'), w'.
      split; [| split; [by simpl | split; [done | split; [| done]]]].
      * rewrite (run_cons _ _ _ _ Hs). exact Hrun.
      * rewrite Hwait. simpl. done.
Qed.

(** X11: [Shutdown] cannot be left waiting by the stage itself: from every
    world in which a caller waits in [Shutdown], steps of the workers alone
    (finishing the units they hold and leaving the loop) lead to the return
    of [Shutdown].  The Processor is taken to return or panic on every
    unit. *)
Theorem Shutdown_can_always_return l u n pr tr w :
  run tr (New l u n pr) = Some (Ok tt w) ->
  waiting w = true ->
  exists tr' w',
    forallb worker_step tr' = true /\
    run (tr' ++ [ShutdownReturn]) w = Some (Ok tt w') /\
    CloseNotify (st w') = chan_closed.
Proof.
  intros Hrun Hwait.
  pose proof (run_inv _ _ _ (New_inv l u n pr) Hrun) as Hinv.
  pose proof (run_pool_inv _ _ _ (New_pool_inv l u n pr) Hrun) as Hpool.
  assert (Hd : data (st w) = chan_closed).
  { destruct (data (st w)) eqn:Hd; [| done].
    destruct (inv_open w Hinv Hd) as (_ & _ & ?). congruence. }
  destruct (drain_progress _ w Hinv Hpool Hd eq_refl)
    as (tr' & w1 & Hrun1 & Hall & Hwg & Hwait1 & Hinv1).
  assert (Hn : nc (st w1) = chan_open).
  { apply (inv_waiting w1 Hinv1). congruence. }
  eexists tr', _. split; [done |]. split.
  - apply run_snoc. exists w1. split; [done |]. simpl.
    rewrite Hwait1, Hwait, Hwg. simpl.
    unfold_stage. simpl. rewrite Hn. reflexivity.
  - done.
Qed.

(** X12: a caller blocked in [Data] or [Error] cannot be left blocked by the
    stage itself: as long as it is blocked, at most one step of the first
    worker (entering its loop, or finishing the unit it holds) makes that
    worker ready, and the send completes.  The Processor is taken to return
    or panic on every unit. *)
Theorem blocked_sender_can_always_complete l u n pr tr w i k load :
  run tr (New l u n pr) = Some (Ok tt w) ->
  senders w !! i = Some (k, load) ->
  exists tr' w',
    forallb worker_step tr' = true /\ (length tr' <= 1)%nat /\
    run (tr' ++ [Handoff i 0]) w = Some (Ok tt w') /\
    senders w' = delete i (senders w) /\
    pool w' !! 0%nat = Some (W_busy load).
Proof.
  intros Hrun Hi.
  pose proof (run_inv _ _ _ (New_inv l u n pr) Hrun) as Hinv.
  pose proof (run_pool_inv _ _ _ (New_pool_inv l u n pr) Hrun) as Hpool.
  assert (Hd : data (st w) = chan_open).
  { destruct (data (st w)) eqn:Hd; [done |].
    destruct (inv_closed w Hinv Hd) as (_ & Hs). rewrite Hs in Hi. done. }
  assert (Hlen : (0 < length (pool w))%nat).
  { rewrite (pool_size w Hpool). pose proof (pool_workers w Hpool). lia. }
  destruct (lookup_lt_is_Some_2 (pool w) 0%nat Hlen) as [g Hg].
  assert (Hhand : forall w1,
    pool w1 !! 0%nat = Some W_recv -> senders w1 = senders w ->
    data (st w1) = chan_open ->
    exists w',
      step (Handoff i 0) w1 = Some (Ok tt w') /\
      senders w' = delete i (senders w) /\
      pool w' !! 0%nat = Some (W_busy load)).
  { intros w1 Hp1 Hs1 Hd1.
    destruct (step_Handoff w1 i 0%nat k load)
      as (w' & Hs & Hpool' & Hsnd & _); [congruence | done | done |].
    exists w'. split; [done |]. split; [congruence |].
    rewrite Hpool'. apply list_lookup_insert_eq. by eapply lookup_lt_Some. }
  destruct g as [| | load0 |].
  - destruct (WorkerStart_enabled w 0%nat Hpool Hg) as (w1 & Hs).
    pose proof (step_Ok_cases _ _ _ Hs) as Hc. simpl in Hc.
    destruct Hc as (_ & _ & Hw1).
    destruct (Hhand w1) as (w' & Hh & Hrest);
      [subst; simpl; by apply list_lookup_insert_eq | by subst | by subst |].
    exists [WorkerStart 0%nat], w'. split; [done |]. split; [simpl; lia |].
    split; [| done]. simpl app. rewrite (run_cons _ _ _ _ Hs).
    by rewrite (run_cons _ _ _ _ Hh).
  - destruct (Hhand w) as (w' & Hh & Hrest); try done.
    exists [], w'. split; [done |]. split; [simpl; lia |].
    split; [| done]. simpl app. by rewrite (run_cons _ _ _ _ Hh).
  - destruct (WorkerRun_enabled w 0%nat load0 Hg) as (w1 & Hs).
    pose proof (step_Ok_cases _ _ _ Hs) as Hc. simpl in Hc.
    destruct Hc as (load' & wb & _ & Hb & Hw1).
    destruct (worker_body_frame w load')
      as (wb' & Hb' & Hpl & Hsn & _ & _ & _ & Hdt & _).
    rewrite Hb in Hb'. simplify_eq.
    destruct (Hhand (with_pool (<[0%nat:=W_recv]> (pool wb')) wb'))
      as (w' & Hh & Hrest);
      [simpl; rewrite Hpl; by apply list_lookup_insert_eq
      | done | simpl; congruence |].
    exists [WorkerRun 0%nat], w'. split; [done |]. split; [simpl; lia |].
    split; [| done]. simpl app. rewrite (run_cons _ _ _ _ Hs).
    by rewrite (run_cons _ _ _ _ Hh).
  - pose proof (pool_open w Hpool Hd) as Hnone.
    pose proof (count_if_zero returned (pool w) 0%nat W_done Hnone Hg). done.
Qed.


(** X13: [Shutdown] does not wait for a worker that has not yet run
    [s.wg.Add(1)], the first statement of [worker].  Called right after
    [New], before any worker was scheduled, it returns at once and closes
    the channel of [CloseNotify] while every worker of the pool is still to
    start; a worker that starts afterwards is counted as running although
    the stage has reported its shutdown as complete. *)
Theorem Shutdown_misses_unstarted_workers l u n pr :
  exists w,
    run [CallShutdown; ShutdownReturn] (New (E:=E) l u n pr)
    = Some (Ok tt w) /\
    CloseNotify (st w) = chan_closed /\
    pool w = pool (New (E:=E) l u n pr) /\
    (forall j g, pool w !! j = Some g -> g = W_new) /\
    exists w',
      step (WorkerStart 0) w = Some (Ok tt w') /\
      TotalWorkersRunning (Stats (st w')) = 1 /\
      CloseNotify (st w') = chan_closed.
Proof.
  eexists. split; [reflexivity |]. simpl. split; [done |]. split; [done |].
  split.
  - intros j g Hj. apply lookup_replicate in Hj as [-> _]. done.
  - destruct (Z.to_nat (if n <=? 0 then 1 else n)) as [| m] eqn:Hm.
    { destruct (n <=? 0) eqn:Hn; lia. }
    simpl. eexists. split; [reflexivity |]. done.
Qed.

End Schedules.

(** ** The combinators on every schedule *)

(** X14: the stage [Identity] builds hands on what it receives, on every
    schedule: a unit submitted through [Data] is broadcast to every
    subscriber's [Data] with the same value, a unit submitted through
    [Error] with a non-nil error is broadcast to every subscriber's [Error]
    with the same error, and each such unit counts as completed.  The
    logger given to [Identity] is not used: the stage logs to [events]. *)
Theorem Identity_hands_on_unchanged u n l ms up tr w j load :
  Identity u n l = Done (ms, up) ->
  run tr ms = Some (Ok tt w) ->
  pool w !! j = Some (W_busy load) ->
  log (st w) = events /\
  exists w',
    step (WorkerRun j) w = Some (Ok tt w') /\
    spawned w'
    = spawned w ++ fanout load (d load) (err load) (pubs (st w)) /\
    processed (st w') = wrap64 (processed (st w) + 1).
Proof.
  intros Hid Hrun Hj. unfold Identity, Do in Hid. simplify_eq.
  match type of Hrun with run tr ?w0 = _ => set (ms := w0) in * end.
  destruct (run_config _ _ _ Hrun) as (_ & _ & Hlog). split; [done |].
  pose proof (run_proc tr ms w _ Hrun eq_refl) as Hp. simpl in Hp.
  simpl. rewrite Hj. unfold bind.
  erewrite worker_body_Done; [| exact Hp | reflexivity].
  eexists. split; [reflexivity |]. done.
Qed.

Lemma env_after_Receive loads xs :
  env_after (doworker_Do (mkDoworker Receive_handler)) loads
    (mkBchan xs chan_open)
  = mkBchan (xs ++ map d loads) chan_open.
Proof.
  revert xs. induction loads as [| load loads IH]; intros xs; simpl.
  - by rewrite app_nil_r.
  - unfold env_after in *. simpl. rewrite IH. by rewrite <- app_assoc.
Qed.

Lemma env_after_ReceiveError loads xs :
  env_after (doworker_Do (mkDoworker ReceiveError_handler)) loads
    (mkBchan xs chan_open)
  = mkBchan (xs ++ errors_of loads) chan_open.
Proof.
  revert xs. induction loads as [| load loads IH]; intros xs; simpl.
  - by rewrite app_nil_r.
  - unfold env_after in *. simpl. destruct (err load) as [m |]; simpl.
    + rewrite IH. by rewrite <- app_assoc.
    + apply IH.
Qed.

(** X15: the channel of [Receive] carries the value of every unit its stage
    serves, in the order in which the worker serves them, whatever entry
    point the unit came through: for a unit submitted through [Error] the
    value is nil, and this nil is sent on the channel like any other value.
    The upstream stage has the bridge as its last subscriber. *)
Theorem Receive_forwards_every_value {E' : Type} (sm : world E') u b0 tr w :
  Receive (Some sm) u = Done b0 ->
  run tr (bridged_ms b0) = Some (Ok tt w) ->
  bridge_chan w
  = Some (mkBchan (map d (served tr (bridged_ms b0))) chan_open) /\
  exists sm',
    bridged_up b0 = Some sm' /\ pubs (st sm') = pubs (st sm) ++ [u].
Proof.
  intros Hre Hrun. unfold Receive, Do, start_closer in Hre. simplify_eq.
  simpl bridged_ms in *. simpl bridged_up. split.
  - unfold bridge_chan.
    match type of Hrun with run tr ?w0 = _ =>
      rewrite (run_proc tr w0 w _ Hrun eq_refl) end.
    simpl. f_equal. apply (env_after_Receive _ []).
  - eexists. split; [reflexivity |]. done.
Qed.

(** X16: the channel of [ReceiveError] carries every non-nil error among
    the units its stage serves, each one once and in the order in which the
    worker serves them, and nothing else. *)
Theorem ReceiveError_forwards_every_error {E' : Type} (sm : world E') u b0
    tr w :
  ReceiveError (Some sm) u = Done b0 ->
  run tr (bridged_ms b0) = Some (Ok tt w) ->
  bridge_chan w
  = Some (mkBchan (errors_of (served tr (bridged_ms b0))) chan_open) /\
  exists sm',
    bridged_up b0 = Some sm' /\ pubs (st sm') = pubs (st sm) ++ [u].
Proof.
  intros Hre Hrun. unfold ReceiveError, Do, start_closer in Hre. simplify_eq.
  simpl bridged_ms in *. simpl bridged_up. split.
  - unfold bridge_chan.
    match type of Hrun with run tr ?w0 = _ =>
      rewrite (run_proc tr w0 w _ Hrun eq_refl) end.
    simpl. f_equal. apply (env_after_ReceiveError _ []).
  - eexists. split; [reflexivity |]. done.
Qed.

(** ** The accounting on the example stages *)

(** X1 on [full_schedule]: one registration, one subscriber. *)
Lemma pubs_are_the_registrations_witness :
  pubs (st shut_down) = subscribers_of (full_schedule ++ [ShutdownReturn]).
Proof.
  apply (pubs_are_the_registrations None "stage" 1 (Some echo)
           (full_schedule ++ [ShutdownReturn]) shut_down).
  vm_compute; reflexivity.
Defined.

(** X2 on [full_schedule]. *)
Lemma calls_go_to_subscribers_witness :
  Forall (fun c => In (target c) (pubs (st shut_down))) (spawned shut_down).
Proof.
  apply (calls_go_to_subscribers None "stage" 1 (Some echo)
           (full_schedule ++ [ShutdownReturn]) shut_down).
  vm_compute; reflexivity.
Defined.

(** X3 on [two_units]: one worker, and it is running. *)
Lemma TotalWorkersRunning_counts_pool_witness :
  TotalWorkersRunning (Stats (st two_units))
  = Z.of_nat (count_if running (pool two_units)) /\
  0 <= TotalWorkersRunning (Stats (st two_units)) <= workers (st two_units) /\
  workers (st two_units) = (if 1 <=? 0 then 1 else 1) /\
  length (pool two_units) = Z.to_nat (workers (st two_units)).
Proof.
  apply (TotalWorkersRunning_counts_pool None "stage" 1 (Some picky)
           [WorkerStart 0; CallData 1 (VInt 1); Handoff 0 0;
            CallData 2 (VInt 2)] two_units).
  - vm_compute. discriminate.
  - vm_compute; reflexivity.
Defined.

(** X4 on [two_units]: one caller is blocked. *)
Lemma Pending_bounds_blocked_senders_witness :
  Z.of_nat (length (senders two_units)) <= Pending (Stats (st two_units)).
Proof.
  apply (Pending_bounds_blocked_senders None "stage" 1 (Some picky)
           [WorkerStart 0; CallData 1 (VInt 1); Handoff 0 0;
            CallData 2 (VInt 2)] two_units).
  - vm_compute. discriminate.
  - vm_compute; reflexivity.
Defined.

(** X5 on [full_schedule]. *)
Lemma closed_marks_follow_Shutdown_witness :
  Closed (Stats (st shut_down))
  = (if calls_Shutdown (full_schedule ++ [ShutdownReturn]) then 1 else 0) /\
  data (st shut_down)
  = (if calls_Shutdown (full_schedule ++ [ShutdownReturn])
     then chan_closed else chan_open) /\
  CloseNotify (st shut_down)
  = (if returns_Shutdown (full_schedule ++ [ShutdownReturn])
     then chan_closed else chan_open).
Proof.
  apply (closed_marks_follow_Shutdown None "stage" 1 (Some echo)
           (full_schedule ++ [ShutdownReturn]) shut_down).
  vm_compute; reflexivity.
Defined.



(** X8 on [full_schedule]. *)
Lemma Shutdown_returns_after_drain_witness :
  runs full_schedule = handoffs full_schedule /\
  (forall j load, pool shut_down !! j <> Some (W_busy load)) /\
  data (st shut_down) = chan_closed.
Proof.
  apply (Shutdown_returns_after_drain None "stage" 1 (Some echo)
           full_schedule shut_down).
  vm_compute; reflexivity.
Defined.

(** X9 on [full_schedule]: two units were accepted, two are completed. *)
Lemma Completed_counts_accepted_units_witness :
  Completed (Stats (st shut_down))
  = wrap64 (Z.of_nat (runs (full_schedule ++ [ShutdownReturn]))) /\
  (returns_Shutdown (full_schedule ++ [ShutdownReturn]) = true ->
   Completed (Stats (st shut_down))
   = wrap64 (Z.of_nat (handoffs (full_schedule ++ [ShutdownReturn])))).
Proof.
  apply (Completed_counts_accepted_units None "stage" 1 echo
           (full_schedule ++ [ShutdownReturn]) shut_down).
  - intros c e v env. eexists. reflexivity.
  - vm_compute; reflexivity.
Defined.

(** X10 on [full_schedule]. *)
Lemma Processor_called_once_per_unit_witness :
  proc (st shut_down)
  = Some (mkProc
            (env_after (Proc_Do echo)
               (served (full_schedule ++ [ShutdownReturn])
                  (New None "stage" 1 (Some echo)))
               (Proc_env echo))
            (Proc_Do echo)) /\
  length (served (full_schedule ++ [ShutdownReturn])
            (New None "stage" 1 (Some echo)))
  = runs (full_schedule ++ [ShutdownReturn]).
Proof.
  apply (Processor_called_once_per_unit None "stage" 1 echo
           (full_schedule ++ [ShutdownReturn]) shut_down).
  vm_compute; reflexivity.
Defined.

(** X11 on [draining]. *)
Lemma Shutdown_can_always_return_witness :
  exists tr' w',
    forallb worker_step tr' = true /\
    run (tr' ++ [ShutdownReturn]) draining = Some (Ok tt w') /\
    CloseNotify (st w') = chan_closed.
Proof.
  apply (Shutdown_can_always_return None "stage" 1 (Some echo)
           [WorkerStart 0; CallData 7 (VInt 42); Handoff 0 0; CallShutdown]
           draining).
  - vm_compute; reflexivity.
  - vm_compute; reflexivity.
Defined.

(** X12 on [two_units]: the worker holds the value 1, the caller with the
    value 2 is blocked. *)
Lemma blocked_sender_can_always_complete_witness :
  exists tr' w',
    forallb worker_step tr' = true /\ (length tr' <= 1)%nat /\
    run (tr' ++ [Handoff 0 0]) two_units = Some (Ok tt w') /\
    senders w' = delete 0%nat (senders two_units) /\
    pool w' !! 0%nat = Some (W_busy (mkPayload None (VInt 2) 2)).
Proof.
  apply (blocked_sender_can_always_complete None "stage" 1 (Some picky)
           [WorkerStart 0; CallData 1 (VInt 1); Handoff 0 0;
            CallData 2 (VInt 2)] two_units 0 via_Data
           (mkPayload None (VInt 2) 2)).
  - vm_compute; reflexivity.
  - vm_compute; reflexivity.
Defined.

(** X14 on the stage of [Identity] with the value ["a"] submitted. *)
Lemma Identity_hands_on_unchanged_witness :
  log (st (after identity_schedule identity_stage)) = events /\
  exists w',
    step (WorkerRun 0) (after identity_schedule identity_stage)
    = Some (Ok tt w') /\
    spawned w'
    = spawned (after identity_schedule identity_stage) ++
      fanout (mkPayload None (VStr "a") 7) (VStr "a") None
        (pubs (st (after identity_schedule identity_stage))) /\
    processed (st w')
    = wrap64 (processed (st (after identity_schedule identity_stage)) + 1).
Proof.
  apply (Identity_hands_on_unchanged "id" 1 None identity_stage None
           identity_schedule (after identity_schedule identity_stage) 0
           (mkPayload None (VStr "a") 7)).
  - vm_compute; reflexivity.
  - vm_compute; reflexivity.
  - vm_compute; reflexivity.
Defined.

(** X15 on a bridge that was fed a value and an error. *)
Lemma Receive_forwards_every_value_witness :
  bridge_chan (after bridge_schedule value_bridge)
  = Some (mkBchan (map d (served bridge_schedule value_bridge)) chan_open) /\
  exists sm',
    Some (world_of (Stream "bridge" upstream)) = Some sm' /\
    pubs (st sm') = pubs (st upstream) ++ ["bridge"].
Proof.
  apply (Receive_forwards_every_value upstream "bridge"
           (mkBridged (Some (world_of (Stream "bridge" upstream)))
              value_bridge closer_recv)
           bridge_schedule (after bridge_schedule value_bridge)).
  - vm_compute; reflexivity.
  - vm_compute; reflexivity.
Defined.

(** X16 on a bridge that was fed a value and an error. *)
Lemma ReceiveError_forwards_every_error_witness :
  bridge_chan (after bridge_schedule bridge)
  = Some (mkBchan (errors_of (served bridge_schedule bridge)) chan_open) /\
  exists sm',
    Some (world_of (Stream "bridge" upstream)) = Some sm' /\
    pubs (st sm') = pubs (st upstream) ++ ["bridge"].
Proof.
  apply (ReceiveError_forwards_every_error upstream "bridge" error_bridge
           bridge_schedule (after bridge_schedule bridge)).
  - vm_compute; reflexivity.
  - vm_compute; reflexivity.
Defined.

(** * Package [metrics] *)

Lemma Pair_induction (P : metrics.Pair -> Prop) :
  (forall k v, P (metrics.mkPair None k v)) ->
  (forall q k v, P q -> P (metrics.mkPair (Some q) k v)) ->
  forall p, P p.
Proof.
  intros Hroot Hlink. fix IH 1. intros [[q |] k v].
  - apply Hlink, IH.
  - apply Hroot.
Qed.

Lemma fields_of_lookup (p : metrics.Pair) (k : string) :
  k <> "" ->
  metrics.fields_of p !! k
  = (let '(v, found) := metrics.get_of p k in
     if found then Some v else None).
Proof.
  intros Hk. induction p as [k' v | q k' v IH] using Pair_induction; simpl.
  - destruct (String.eqb_spec k' k) as [-> | Hne].
    + by rewrite lookup_insert_eq.
    + rewrite lookup_insert_ne by done. by rewrite lookup_empty.
  - destruct (String.eqb_spec k' k) as [-> | Hne].
    + destruct (String.eqb_spec k "") as [? | _]; [done |]. simpl.
      by rewrite lookup_insert_eq.
    + destruct (String.eqb_spec k' "") as [_ | _]; simpl; [done |].
      by rewrite lookup_insert_ne.
Qed.

(** X17: the map [Fields] builds from a chain agrees with [Get] on every
    key that is not the empty string: a key is in the map exactly when [Get]
    finds it, and the map holds the value [Get] returns, which is the one
    appended last.  On a nil chain [Get] finds nothing while [Fields]
    panics. *)
Theorem Fields_agrees_with_Get (p : option metrics.Pair) (k : string) f :
  k <> "" ->
  metrics.Pair_Fields p = Done f ->
  f !! k
  = (let '(v, found) := metrics.Pair_Get p k in
     if found then Some v else None) /\
  metrics.Pair_Get None k = (VNil, false) /\
  metrics.Pair_Fields None
  = Panic "invalid memory address or nil pointer dereference".
Proof.
  intros Hk Hf. split; [| done].
  destruct p as [p |]; simpl in Hf; [| done]. simplify_eq. simpl.
  by apply fields_of_lookup.
Qed.

(** The chain [append_all] builds, and its map. *)
Lemma append_all_fields order e f :
  metrics.Entry_Fields e = Done f ->
  Forall (fun kv => fst kv <> "") order ->
  metrics.Entry_Fields (metrics.append_all order e)
  = Done (fold_left (fun f' kv => <[fst kv:=snd kv]> f') order f).
Proof.
  revert e f. induction order as [| [k v] order IH]; intros e f Hf Hall;
    simpl; [done |].
  apply IH; [| by inversion Hall].
  inversion Hall as [| ? ? Hk _]; subst. simpl in Hk.
  destruct e as [[p |] msg]; unfold metrics.Entry_Fields in *; simpl in *;
    [| done]. simplify_eq.
  destruct (String.eqb_spec k "") as [? | _]; [done |]. done.
Qed.

Lemma fold_left_insert_list_to_map
    (order : list (string * interface)) (f : gmap string interface) :
  fold_left (fun f' kv => <[fst kv:=snd kv]> f') order f
  = list_to_map (rev order) ∪ f.
Proof.
  revert f. induction order as [| [k v] order IH]; intros f; simpl.
  - by rewrite (left_id_L ∅ (∪)).
  - rewrite IH. rewrite list_to_map_app. simpl.
    rewrite <- (assoc_L (∪)). f_equal.
    rewrite insert_union_singleton_l.
    rewrite <- insert_union_singleton_l. rewrite insert_empty.
    by rewrite <- insert_union_singleton_l.
Qed.

(** X18: [WithFields] followed by [Fields] gives the map back, in whatever
    order [range] went through it, provided the map is not empty and has no
    empty key.  For the empty map the entry holds a nil chain and [Fields]
    panics. *)
Theorem WithFields_then_Fields (f : gmap string interface)
    (order : list (string * interface)) :
  order ≡ₚ map_to_list f ->
  f !! "" = None ->
  (f <> ∅ -> metrics.Entry_Fields (metrics.WithFields order) = Done f) /\
  (f = ∅ ->
   metrics.Entry_Fields (metrics.WithFields order)
   = Panic "invalid memory address or nil pointer dereference").
Proof.
  intros Hperm Hempty. split.
  - intros Hne.
    assert (Hnodup : NoDup (order.*1)).
    { rewrite Hperm. apply NoDup_fst_map_to_list. }
    assert (Hkeys : Forall (fun kv => fst kv <> "") order).
    { apply Forall_forall. intros [k v] Hin. simpl. intros ->.
      rewrite Hperm in Hin. apply elem_of_map_to_list in Hin. congruence. }
    destruct order as [| [k v] order].
    { symmetry in Hperm. apply Permutation_nil_r in Hperm.
      apply map_to_list_empty_iff in Hperm. done. }
    unfold metrics.WithFields. simpl.
    rewrite (append_all_fields order _ (<[k:=v]> ∅));
      [| done | by inversion Hkeys].
    f_equal. rewrite fold_left_insert_list_to_map.
    change (<[k:=v]> (∅ : gmap string interface))
      with (list_to_map [(k, v)] : gmap string interface).
    rewrite <- list_to_map_app.
    change (rev order ++ [(k, v)]) with (rev ((k, v) :: order)).
    transitivity (list_to_map (map_to_list f) : gmap string interface);
      [| apply list_to_map_to_list].
    assert (Hrev : rev ((k, v) :: order) ≡ₚ (k, v) :: order)
      by (symmetry; apply Permutation_rev).
    apply list_to_map_proper.
    + by rewrite Hrev.
    + by rewrite Hrev.
  - intros ->. rewrite map_to_list_empty in Hperm.
    apply Permutation_nil_r in Hperm. subst. done.
Qed.

Lemma hide_loop_spec (n : nat) (mval : list string) :
  metrics.hide_loop n mval = mval ++ repeat "*" n.
Proof.
  revert mval. induction n as [| n IH]; intros mval; simpl.
  - by rewrite app_nil_r.
  - rewrite IH. by rewrite <- app_assoc.
Qed.

Lemma Join_empty_sep (elems : list string) :
  metrics.strings_Join elems "" = fold_right String.append "" elems.
Proof.
  induction elems as [| x [| y rest] IH]; [done | |].
  - simpl. induction x as [| a x IHx]; [done |].
    change (String a x = String a (x ++ ""))%string. by f_equal.
  - change (metrics.strings_Join (x :: y :: rest) "")
      with (x ++ "" ++ metrics.strings_Join (y :: rest) "")%string.
    rewrite IH. done.
Qed.

Lemma Join_stars (n : nat) :
  list_ascii_of_string (metrics.strings_Join (repeat "*" n) "")
  = repeat "*"%char n.
Proof.
  rewrite Join_empty_sep. induction n as [| n IH]; [done |].
  change (list_ascii_of_string (foldr String.append "" (repeat "*" (S n))))
    with ("*"%char
          :: list_ascii_of_string (foldr String.append "" (repeat "*" n))).
  by rewrite IH.
Qed.

(** X19: [Hide] gives away the length of the message and nothing else: the
    result has as many bytes as the message, and each of them is the
    asterisk; the empty message gives the empty string. *)
Theorem Hide_is_all_asterisks (message : string) :
  list_ascii_of_string (metrics.Hide message)
  = repeat "*"%char (String.length message) /\
  String.length (metrics.Hide message) = String.length message.
Proof.
  assert (H : list_ascii_of_string (metrics.Hide message)
              = repeat "*"%char (String.length message)).
  { unfold metrics.Hide. rewrite hide_loop_spec. simpl. apply Join_stars. }
  split; [done |].
  rewrite <- (string_of_list_ascii_of_string (metrics.Hide message)), H.
  clear H. induction (String.length message) as [| n IH]; simpl; [done |].
  by rewrite IH.
Qed.

(** * Package [vfiles] *)

(** X20: [validExtension] says whether the extension is one of the allowed
    ones, by exact comparison; with no allowed extension it says no. *)
Theorem validExtension_is_membership (extensions : list string)
    (ext : string) :
  (vfiles.validExtension extensions ext = true <-> In ext extensions) /\
  vfiles.validExtension [] ext = false.
Proof.
  split; [| done].
  induction extensions as [| es rest IH]; simpl.
  - split; [done | tauto].
  - destruct (String.eqb_spec es ext) as [-> | Hne]; simpl.
    + split; [auto | done].
    + rewrite IH. split; [auto |]. intros [? | ?]; [done | done].
Qed.

(** * Package [context] *)

Lemma interface_eqb_eq (a b : interface) :
  gocontext.interface_eqb a b = true <-> a = b.
Proof.
  destruct a as [| n | s], b as [| m | t]; simpl; try (split; done).
  - rewrite Z.eqb_eq. split; [by intros -> | by intros [= ->]].
  - rewrite String.eqb_eq. split; [by intros -> | by intros [= ->]].
Qed.

(** X21: after any run of calls of [Set], [Get] returns for a key the value
    of the last call that set it, and for a key no call has set what it
    returned before them; the calls leave the cancellation of the context
    alone.  On a context fresh from [New] a key that was never set is not
    found. *)
Theorem Get_returns_last_Set (ops : list (interface * interface))
    (c : gocontext.context) (k : interface) :
  gocontext.Get (gocontext.set_all ops c) k
  = match gocontext.last_set ops k with
    | Some v => (v, true)
    | None => gocontext.Get c k
    end /\
  gocontext.canceller (gocontext.set_all ops c) = gocontext.canceller c /\
  gocontext.canceled (gocontext.set_all ops c) = gocontext.canceled c /\
  gocontext.Get gocontext.New k = (VNil, false).
Proof.
  split; [| split; [| split; [| done]]].
  - revert c. induction ops as [| [k' v] ops IH]; intros c; simpl; [done |].
    unfold gocontext.set_all in *. rewrite IH.
    destruct (gocontext.last_set ops k); [done |].
    unfold gocontext.Get, gocontext.Set_, gocontext.Append,
      gocontext.Pair_Append. simpl.
    destruct (gocontext.interface_eqb k' k); [done |].
    by destruct (gocontext.fields c).
  - revert c. induction ops as [| [k' v] ops IH]; intros c; simpl; [done |].
    unfold gocontext.set_all in *. by rewrite IH.
  - revert c. induction ops as [| [k' v] ops IH]; intros c; simpl; [done |].
    unfold gocontext.set_all in *. by rewrite IH.
Qed.

Lemma IsExpired_canceled now (c : gocontext.context) :
  gocontext.canceled c = true -> gocontext.IsExpired now c = true.
Proof.
  intros Hc. unfold gocontext.IsExpired.
  destruct (gocontext.TimeRemaining now c) as [rem has].
  rewrite Hc. by destruct (has && (rem <=? 0)).
Qed.

Lemma IsExpired_deadline now (c : gocontext.context) :
  gocontext.lifetime c <> 0 -> gocontext.lifetime c <= now ->
  gocontext.IsExpired now c = true.
Proof.
  intros Hz Hle. unfold gocontext.IsExpired, gocontext.TimeRemaining,
    gocontext.IsZero, gocontext.Before.
  destruct (gocontext.lifetime c =? 0) eqn:H0; [lia |].
  destruct (now <? gocontext.lifetime c) eqn:Hlt; [lia |]. done.
Qed.

Lemma IsExpired_mono now1 now2 (c : gocontext.context) :
  now1 <= now2 -> gocontext.IsExpired now1 c = true ->
  gocontext.IsExpired now2 c = true.
Proof.
  intros Hle. unfold gocontext.IsExpired, gocontext.TimeRemaining,
    gocontext.IsZero, gocontext.Before, gocontext.Sub.
  destruct (gocontext.lifetime c =? 0) eqn:H0; simpl; [done |].
  destruct (now1 <? gocontext.lifetime c) eqn:Hlt1;
    destruct (now2 <? gocontext.lifetime c) eqn:Hlt2; simpl; try done;
    try lia.
  - destruct (Z.max int64_min (Z.min int64_max (gocontext.lifetime c - now1))
              <=? 0) eqn:Hd1;
      [unfold int64_min, int64_max in *; lia |].
    destruct (gocontext.canceled c); [| done]. intros _.
    by destruct (Z.max int64_min
                   (Z.min int64_max (gocontext.lifetime c - now2)) <=? 0).
Qed.

(** X22: [Cancel] closes the channel of a context at most once.  On a
    context whose channel is open as long as it is not cancelled, [Cancel]
    never panics; and once it has returned, a later [Cancel] changes
    nothing, and [Done] returns nil instead of the closed channel. *)
Theorem Cancel_twice_is_Cancel_once now1 now2 (c : gocontext.context) :
  (gocontext.canceled c = false ->
   gocontext.canceller c = chan_open) ->
  now1 <= now2 ->
  exists c1,
    gocontext.Cancel now1 c = Done c1 /\
    gocontext.Cancel now2 c1 = Done c1 /\
    gocontext.context_Done now2 c1 = None /\
    (gocontext.IsExpired now1 c = false ->
     gocontext.canceled c1 = true /\
     gocontext.canceller c1 = chan_closed).
Proof.
  intros Hwf Hle. unfold gocontext.Cancel at 1.
  destruct (gocontext.IsExpired now1 c) eqn:Hexp.
  - exists c. split; [done |].
    pose proof (IsExpired_mono now1 now2 c Hle Hexp) as Hexp2.
    unfold gocontext.Cancel, gocontext.context_Done. rewrite Hexp2. done.
  - assert (Hc : gocontext.canceled c = false).
    { destruct (gocontext.canceled c) eqn:Hc; [| done].
      rewrite (IsExpired_canceled now1 c Hc) in Hexp. done. }
    rewrite (Hwf Hc). eexists. split; [reflexivity |].
    unfold gocontext.Cancel, gocontext.context_Done.
    rewrite IsExpired_canceled by done. done.
Qed.

(** X23: once the lifetime of a context has passed, [Cancel] does nothing
    at all: it leaves the channel of the context as it is, so a channel that
    [Done] returned before the deadline is not closed by it, and [Done] now
    returns nil. *)
Theorem Cancel_after_deadline_is_noop now (c : gocontext.context) :
  gocontext.lifetime c <> 0 ->
  gocontext.lifetime c <= now ->
  gocontext.Cancel now c = Done c /\
  gocontext.context_Done now c = None /\
  gocontext.TimeRemaining now c = (0, true).
Proof.
  intros Hz Hle.
  unfold gocontext.Cancel, gocontext.context_Done.
  rewrite (IsExpired_deadline now c Hz Hle). split; [done |].
  split; [done |].
  unfold gocontext.TimeRemaining, gocontext.IsZero, gocontext.Before.
  destruct (gocontext.lifetime c =? 0) eqn:H0; [lia |].
  destruct (now <? gocontext.lifetime c) eqn:Hlt; [lia |]. done.
Qed.

(** ** The other packages on examples *)

(** X17 on a chain of two pairs. *)
Lemma Fields_agrees_with_Get_witness :
  metrics.fields_of (metrics.mkPair (Some (metrics.mkPair None "a" (VInt 1)))
                       "b" (VInt 2)) !! "b"
  = (let '(v, found) := metrics.Pair_Get two_pairs "b" in
     if found then Some v else None) /\
  metrics.Pair_Get None "b" = (VNil, false) /\
  metrics.Pair_Fields None
  = Panic "invalid memory address or nil pointer dereference".
Proof.
  apply (Fields_agrees_with_Get two_pairs "b").
  - discriminate.
  - reflexivity.
Defined.

(** X18 on a map with one key. *)
Lemma WithFields_then_Fields_witness :
  (({["a" := VInt 1]} : gmap string interface) <> ∅ ->
   metrics.Entry_Fields (metrics.WithFields [("a", VInt 1)])
   = Done {["a" := VInt 1]}) /\
  (({["a" := VInt 1]} : gmap string interface) = ∅ ->
   metrics.Entry_Fields (metrics.WithFields [("a", VInt 1)])
   = Panic "invalid memory address or nil pointer dereference").
Proof.
  apply (WithFields_then_Fields {["a" := VInt 1]} [("a", VInt 1)]).
  - rewrite map_to_list_singleton. reflexivity.
  - apply lookup_singleton_ne. discriminate.
Defined.

(** X22 on a fresh context. *)
Lemma Cancel_twice_is_Cancel_once_witness :
  exists c1,
    gocontext.Cancel 5 gocontext.New = Done c1 /\
    gocontext.Cancel 9 c1 = Done c1 /\
    gocontext.context_Done 9 c1 = None /\
    (gocontext.IsExpired 5 gocontext.New = false ->
     gocontext.canceled c1 = true /\
     gocontext.canceller c1 = chan_closed).
Proof.
  apply (Cancel_twice_is_Cancel_once 5 9 gocontext.New).
  - reflexivity.
  - lia.
Defined.

(** X23 on a context whose deadline is reached. *)
Lemma Cancel_after_deadline_is_noop_witness :
  gocontext.Cancel 100 with_deadline = Done with_deadline /\
  gocontext.context_Done 100 with_deadline = None /\
  gocontext.TimeRemaining 100 with_deadline = (0, true).
Proof.
  apply (Cancel_after_deadline_is_noop 100 with_deadline).
  - simpl. lia.
  - simpl. lia.
Defined.
